(** * zero-scraper: the article and byline extractor

    A shallow embedding of [internal/scrape/scrape.go] (function
    [ScrapeArticle]) and of the command-line entry point that prints its
    result, together with the parts of the Go libraries the code calls:
    [unicode/utf8], [unicode], [strings], the [html] node tree, the
    [cascadia] selectors, [goquery]'s [Find] and [Text], and [colly]'s
    collector.

    A Go [string] is an immutable sequence of bytes: it is modelled as
    [String.string], whose characters are the 256 values of [ascii].  The
    byte-level functions of [utf8] and [strings] work on [list ascii], with
    [s[i:j]] written [firstn]/[skipn] and [s[i]] written [nth]. *)

From Stdlib Require Import List String Ascii NArith Lia Bool Arith.
Import ListNotations.

Set Implicit Arguments.

(** ** Bytes *)

Definition byte := ascii.

(** The numeric value of a byte, [0 .. 255]. *)
Definition bval (b : byte) : N := N_of_ascii b.

Definition bytes := list byte.

Definition bytes_of (s : string) : bytes := list_ascii_of_string s.
Definition string_of (l : bytes) : string := string_of_list_ascii l.

(** ** Package [unicode/utf8] *)

Module utf8.

Open Scope N_scope.

Definition rune := N.

Definition RuneError : rune := 0xFFFD.
Definition RuneSelf : N := 0x80.
Definition UTFMax : nat := 4.

Definition maskx : N := 0x3F.
Definition mask2 : N := 0x1F.
Definition mask3 : N := 0x0F.
Definition mask4 : N := 0x07.

Definition locb : N := 0x80.
Definition hicb : N := 0xBF.

(** Entries of the table [first]: the high nibble indexes [acceptRanges]
    (or is [F] for the one-byte cases), the low nibble is the length of the
    encoding (or the status of a one-byte case). *)
Definition xx : N := 0xF1.
Definition as_ : N := 0xF0.
Definition s1 : N := 0x02.
Definition s2 : N := 0x13.
Definition s3 : N := 0x03.
Definition s4 : N := 0x23.
Definition s5 : N := 0x34.
Definition s6 : N := 0x04.
Definition s7 : N := 0x44.

(** The 256-entry table [first], by the ranges of its rows. *)
Definition first (b : N) : N :=
  if b <? 0x80 then as_
  else if b <? 0xC2 then xx
  else if b <? 0xE0 then s1
  else if b =? 0xE0 then s2
  else if b <? 0xED then s3
  else if b =? 0xED then s4
  else if b <? 0xF0 then s3
  else if b =? 0xF0 then s5
  else if b <? 0xF4 then s6
  else if b =? 0xF4 then s7
  else xx.

Record acceptRange := { lo : N; hi : N }.

Definition acceptRanges (i : N) : acceptRange :=
  match i with
  | 0 => {| lo := locb; hi := hicb |}
  | 1 => {| lo := 0xA0; hi := hicb |}
  | 2 => {| lo := locb; hi := 0x9F |}
  | 3 => {| lo := 0x90; hi := hicb |}
  | 4 => {| lo := locb; hi := 0x8F |}
  | _ => {| lo := 0; hi := 0 |}
  end.

(** [RuneStart b] reports whether [b] could be the first byte of an encoded
    rune: second and later bytes always have the top two bits [10]. *)
Definition RuneStart (b : N) : bool := negb (N.land b 0xC0 =? 0x80).

(** The second half of [DecodeRuneInString], reached when the first byte
    of [s] announces an encoding of [sz] bytes, [2 <= sz], whose second
    byte must lie in [accept]. *)
Definition decodeMultibyte (sz : nat) (accept : acceptRange) (s : bytes)
  : rune * nat :=
  if (List.length s <? sz)%nat then (RuneError, 1%nat)
  else
    match s with
    | c0 :: c1 :: t1 =>
      let b0 := bval c0 in
      let b1 := bval c1 in
      if (b1 <? lo accept) || (hi accept <? b1) then (RuneError, 1%nat)
      else if (sz <=? 2)%nat then
        (N.lor (N.shiftl (N.land b0 mask2) 6) (N.land b1 maskx), 2%nat)
      else
        match t1 with
        | [] => (RuneError, 1%nat)
        | c2 :: t2 =>
          let b2 := bval c2 in
          if (b2 <? locb) || (hicb <? b2) then (RuneError, 1%nat)
          else if (sz <=? 3)%nat then
            (N.lor (N.lor (N.shiftl (N.land b0 mask3) 12)
                          (N.shiftl (N.land b1 maskx) 6))
                   (N.land b2 maskx), 3%nat)
          else
            match t2 with
            | [] => (RuneError, 1%nat)
            | c3 :: _ =>
              let b3 := bval c3 in
              if (b3 <? locb) || (hicb <? b3) then (RuneError, 1%nat)
              else
                (N.lor (N.lor (N.lor (N.shiftl (N.land b0 mask4) 18)
                                      (N.shiftl (N.land b1 maskx) 12))
                              (N.shiftl (N.land b2 maskx) 6))
                       (N.land b3 maskx), 4%nat)
            end
        end
    | _ => (RuneError, 1%nat)
    end.

(** [DecodeRuneInString s]: the first rune of [s] and its width in bytes;
    [(RuneError, 0)] on the empty string, [(RuneError, 1)] on an invalid
    encoding. *)
Definition DecodeRuneInString (s : bytes) : rune * nat :=
  match s with
  | [] => (RuneError, 0%nat)
  | c0 :: _ =>
    let x := first (bval c0) in
    if as_ <=? x then
      (* mask := rune(x) << 31 >> 31;
         return rune(s[0])&^mask | RuneError&mask, 1 *)
      ((if x =? xx then RuneError else bval c0), 1%nat)
    else
      decodeMultibyte (N.to_nat (N.land x 7)) (acceptRanges (N.shiftr x 4)) s
  end.

(** The backward scan of [DecodeLastRuneInString]:
    [for start--; start >= lim; start-- { if RuneStart(s[start]) { break } }]
    entered with [start] already decremented.  [None] stands for the index
    [-1]; at most [UTFMax - 1] bytes are inspected. *)
Fixpoint scanBack (fuel : nat) (s : bytes) (lim : nat) (start : option nat)
  : option nat :=
  match fuel with
  | O => start
  | S fuel' =>
    match start with
    | None => None
    | Some i =>
      if (i <? lim)%nat then start
      else if RuneStart (bval (nth i s zero)) then start
      else scanBack fuel' s lim (match i with O => None | S j => Some j end)
    end
  end.

(** [DecodeLastRuneInString s]: the last rune of [s] and its width. *)
Definition DecodeLastRuneInString (s : bytes) : rune * nat :=
  let end_ := List.length s in
  if (end_ =? 0)%nat then (RuneError, 0%nat)
  else
    let start := (end_ - 1)%nat in
    let r := bval (nth start s zero) in
    if r <? RuneSelf then (r, 1%nat)
    else
      (* lim := end - UTFMax; if lim < 0 { lim = 0 } *)
      let lim := (end_ - UTFMax)%nat in
      let start :=
        scanBack UTFMax s lim
                 (match start with O => None | S j => Some j end) in
      (* if start < 0 { start = 0 } *)
      let start := match start with None => 0%nat | Some i => i end in
      let '(r, size) := DecodeRuneInString (firstn (end_ - start) (skipn start s)) in
      if negb (start + size =? end_)%nat then (RuneError, 1%nat)
      else (r, size).

End utf8.

(** ** Package [unicode] *)

Module unicode.

Open Scope N_scope.

Definition MaxLatin1 : N := 0xFF.

(** The ranges of the table [White_Space] above Latin-1. *)
Definition White_Space_above_Latin1 (r : utf8.rune) : bool :=
  (r =? 0x1680)
  || ((0x2000 <=? r) && (r <=? 0x200A))
  || ((0x2028 <=? r) && (r <=? 0x2029))
  || (r =? 0x202F)
  || (r =? 0x205F)
  || (r =? 0x3000).

(** [IsSpace r] reports whether the rune is a space character as defined by
    Unicode's White Space property; in the Latin-1 space this is
    ['\t', '\n', '\v', '\f', '\r', ' ', U+0085 (NEL), U+00A0 (NBSP)]. *)
Definition IsSpace (r : utf8.rune) : bool :=
  if r <=? MaxLatin1 then
    match r with
    | 0x09 | 0x0A | 0x0B | 0x0C | 0x0D | 0x20 | 0x85 | 0xA0 => true
    | _ => false
    end
  else White_Space_above_Latin1 r.

End unicode.

(** ** Package [strings] *)

Module strings.

Import utf8.

(** The table [asciiSpace]: ['\t', '\n', '\v', '\f', '\r', ' ']. *)
Definition asciiSpace (c : N) : bool :=
  match c with
  | 0x09 | 0x0A | 0x0B | 0x0C | 0x0D | 0x20 => true
  | _ => false
  end%N.

Section IndexFunc.

Variable f : rune -> bool.
Variable truth : bool.

(** [for i, r := range s { if f(r) == truth { return i } }; return -1].
    The loop is at byte offset [i] of the string, of which [rest = s[i:]]
    is left; [None] is the result [-1].  Each iteration consumes at least
    one byte, so [length rest] iterations are enough. *)
Fixpoint indexFunc_loop (fuel : nat) (rest : bytes) (i : nat) : option nat :=
  match fuel with
  | O => None
  | S fuel' =>
    match rest with
    | [] => None
    | _ :: _ =>
      let '(r, size) := DecodeRuneInString rest in
      if Bool.eqb (f r) truth then Some i
      else indexFunc_loop fuel' (skipn size rest) (i + size)
    end
  end.

Definition indexFunc (s : bytes) : option nat :=
  indexFunc_loop (S (List.length s)) s 0.

(** [for i := len(s); i > 0; { r, size := DecodeLastRuneInString(s[0:i]);
     i -= size; if f(r) == truth { return i } }; return -1]. *)
Fixpoint lastIndexFunc_loop (fuel : nat) (s : bytes) (i : nat) : option nat :=
  match fuel with
  | O => None
  | S fuel' =>
    if (i =? 0)%nat then None
    else
      let '(r, size) := DecodeLastRuneInString (firstn i s) in
      let i := (i - size)%nat in
      if Bool.eqb (f r) truth then Some i
      else lastIndexFunc_loop fuel' s i
  end.

Definition lastIndexFunc (s : bytes) : option nat :=
  lastIndexFunc_loop (S (List.length s)) s (List.length s).

End IndexFunc.

(** [TrimLeftFunc s f]: [s] without its leading runes satisfying [f]. *)
Definition TrimLeftFunc (s : bytes) (f : rune -> bool) : bytes :=
  match indexFunc f false s with
  | None => []
  | Some i => skipn i s
  end.

(** [TrimRightFunc s f]: [s] without its trailing runes satisfying [f]. *)
Definition TrimRightFunc (s : bytes) (f : rune -> bool) : bytes :=
  match lastIndexFunc f false s with
  | Some i =>
    if (RuneSelf <=? bval (nth i s zero))%N then
      let '(_, wid) := DecodeRuneInString (skipn i s) in
      firstn (i + wid) s
    else firstn (i + 1) s
  | None => firstn 0 s
  end.

Definition TrimFunc (s : bytes) (f : rune -> bool) : bytes :=
  TrimRightFunc (TrimLeftFunc s f) f.

(** The second loop of [TrimSpace], on [u = s[start:]] with [stop] counted
    from [start]:
    [for ; stop > start; stop-- { c := s[stop-1]; if c >= utf8.RuneSelf
     { return TrimRightFunc(s[start:stop], unicode.IsSpace) };
     if asciiSpace[c] == 0 { break } }; return s[start:stop]]. *)
Fixpoint TrimSpace_stop (u : bytes) (stop : nat) : bytes :=
  match stop with
  | O => firstn 0 u
  | S k =>
    let c := bval (nth k u zero) in
    if (RuneSelf <=? c)%N then TrimRightFunc (firstn stop u) unicode.IsSpace
    else if asciiSpace c then TrimSpace_stop u k
    else firstn stop u
  end.

(** The first loop of [TrimSpace], on [u = s[start:]]:
    [for ; start < len(s); start++ { c := s[start]; if c >= utf8.RuneSelf
     { return TrimFunc(s[start:], unicode.IsSpace) };
     if asciiSpace[c] == 0 { break } }], followed by the second loop. *)
Fixpoint TrimSpace_start (u : bytes) : bytes :=
  match u with
  | [] => TrimSpace_stop u (List.length u)
  | c :: u' =>
    if (RuneSelf <=? bval c)%N then TrimFunc u unicode.IsSpace
    else if asciiSpace (bval c) then TrimSpace_start u'
    else TrimSpace_stop u (List.length u)
  end.

(** [TrimSpace s]: [s] with all leading and trailing white space removed,
    as defined by Unicode. *)
Definition TrimSpace (s : string) : string :=
  string_of (TrimSpace_start (bytes_of s)).

(** [Join elems sep]: the elements concatenated, [sep] between them. *)
Fixpoint Join (elems : list string) (sep : string) : string :=
  match elems with
  | [] => ""
  | [e] => e
  | e :: rest => e ++ sep ++ Join rest sep
  end.

End strings.

Open Scope string_scope.

(** The newline character ['\n']. *)
Definition newline : string := String (ascii_of_nat 10) "".

(** Concatenation of a list of strings, in order. *)
Definition strcat (l : list string) : string := fold_right append "" l.

(** ** Package [golang.org/x/net/html]: the parsed node tree *)

Module html.

Inductive NodeType :=
| ErrorNode | TextNode | DocumentNode | ElementNode | CommentNode | DoctypeNode.

Definition NodeType_eqb (a b : NodeType) : bool :=
  match a, b with
  | ErrorNode, ErrorNode | TextNode, TextNode | DocumentNode, DocumentNode
  | ElementNode, ElementNode | CommentNode, CommentNode
  | DoctypeNode, DoctypeNode => true
  | _, _ => false
  end.

Record Attribute := { Namespace : string; Key : string; Val : string }.

(** A node with its children in sibling order ([FirstChild], then
    [NextSibling]).  [Data] is the tag name of an element and the text of a
    text node. *)
#[local] Unset Elimination Schemes.
Inductive Node :=
| mkNode (Type_ : NodeType) (Data : string) (Attr : list Attribute)
         (Children : list Node).
#[local] Set Elimination Schemes.

Definition Type_ (n : Node) := let '(mkNode t _ _ _) := n in t.
Definition Data (n : Node) := let '(mkNode _ d _ _) := n in d.
Definition Attr (n : Node) := let '(mkNode _ _ a _) := n in a.
Definition Children (n : Node) := let '(mkNode _ _ _ c) := n in c.

End html.

(** ** Package [cascadia]: the compiled selectors the program uses *)

Module cascadia.

Import html.

Definition Selector := Node -> bool.

(** The white space that separates class names: [" \t\r\n\f"]. *)
Definition isClassSep (c : ascii) : bool :=
  match bval c with
  | 0x20 | 0x09 | 0x0D | 0x0A | 0x0C => true
  | _ => false
  end%N.

(** The loop of [attributeIncludesMatch]: [tok] is the part of the current
    field read so far; the attribute value includes [val] when one of its
    white-space separated fields equals [val].
    [for s != "" { i := strings.IndexAny(s, " \t\r\n\f");
       if i == -1 { return s == val }; if s[:i] == val { return true };
       s = s[i+1:] }; return false] *)
Fixpoint includesFrom (tok : string) (s : string) (val : string) : bool :=
  match s with
  | "" => match tok with "" => false | _ => String.eqb tok val end
  | String c s' =>
    if isClassSep c then String.eqb tok val || includesFrom "" s' val
    else includesFrom (tok ++ String c "") s' val
  end.

Definition includes (s val : string) : bool := includesFrom "" s val.

(** [matchAttribute n key f]: [n] is an element and one of its attributes
    named [key] has a value accepted by [f]. *)
Definition matchAttribute (n : Node) (key : string) (f : string -> bool)
  : bool :=
  NodeType_eqb (Type_ n) ElementNode
  && existsb (fun a => String.eqb (Key a) key && f (Val a)) (Attr n).

(** The type selector [tag]. *)
Definition tagSelector (tag : string) : Selector :=
  fun n => NodeType_eqb (Type_ n) ElementNode && String.eqb (Data n) tag.

(** The class selector [.class]. *)
Definition classSelector (class : string) : Selector :=
  fun n => matchAttribute n "class" (fun s => includes s class).

(** A compound selector: a node accepted by every part (any element when
    there is no part). *)
Definition compoundSelector (parts : list Selector) : Selector :=
  fun n =>
    match parts with
    | [] => NodeType_eqb (Type_ n) ElementNode
    | _ => forallb (fun s => s n) parts
    end.

(** [matchAllInto]: the nodes of the subtree of [n], [n] included, that the
    selector accepts, in document order. *)
Fixpoint MatchAll (s : Selector) (n : Node) : list Node :=
  (if s n then [n] else [])
  ++ flat_map (MatchAll s) (Children n).

End cascadia.

(** ** Package [goquery] *)

Module goquery.

Import html.

(** [Selection.Text] on the one-node selection of [n]: the data of every
    text node of the subtree, in document order. *)
Fixpoint Text (n : Node) : string :=
  (match Type_ n with TextNode => Data n | _ => "" end)
  ++ strcat (map Text (Children n)).

(** [Selection.Find] on the one-node selection of [n]
    ([findWithMatcher]): the matches inside the element children of [n],
    so [n] itself is never among them. *)
Definition Find (m : cascadia.Selector) (n : Node) : list Node :=
  flat_map (fun c => match Type_ c with
                     | ElementNode => cascadia.MatchAll m c
                     | _ => []
                     end)
           (Children n).

End goquery.

(** ** Package [colly] *)

Module colly.

Definition error := string.

(** What a callback receives for a matched node
    ([NewHTMLElementFromSelectionNode]): [Text] is the text of the whole
    subtree, [DOM] the one-node selection. *)
Record HTMLElement := { Name : string; Text : string; DOM : html.Node }.

Definition NewHTMLElementFromSelectionNode (n : html.Node) : HTMLElement :=
  {| Name := html.Data n; Text := goquery.Text n; DOM := n |}.

(** The selector strings the program registers, as [cascadia] compiles
    them. *)
Inductive SelectorText := sel_div_Page_authors | sel_p | sel_a.

Definition compile (s : SelectorText) : cascadia.Selector :=
  match s with
  | sel_div_Page_authors =>
    cascadia.compoundSelector
      [cascadia.tagSelector "div"; cascadia.classSelector "Page-authors"]
  | sel_p => cascadia.tagSelector "p"
  | sel_a => cascadia.tagSelector "a"
  end.

(** What [Collector.Visit] meets on the network, as far as the callbacks
    and the returned error can tell. *)
Inductive Outcome :=
| Rejected (err : error)
  (** the request is refused before it is sent: [Visit] returns [err] and
      no callback runs *)
| FetchFailed (requestURL : string) (err : error)
  (** the request cannot be completed or is answered with an error status:
      the [OnError] callbacks run, then [Visit] returns [err] *)
| Received (page : option html.Node).
  (** a response arrived; [page] is its body parsed by [goquery] when the
      content type is HTML, and the [OnHTML] callbacks run on it *)

Definition Network := string -> Outcome.

Section Collector.

(** The variables the callbacks capture and update. *)
Variable Vars : Type.

Definition HTMLCallback := HTMLElement -> Vars -> Vars.
Definition ErrorCallback := string -> error -> Vars -> Vars.

Record Collector := {
  htmlCallbacks : list (SelectorText * HTMLCallback);
  errorCallbacks : list ErrorCallback
}.

Definition NewCollector : Collector :=
  {| htmlCallbacks := []; errorCallbacks := [] |}.

Definition OnHTML (sel : SelectorText) (f : HTMLCallback) (c : Collector)
  : Collector :=
  {| htmlCallbacks := htmlCallbacks c ++ [(sel, f)];
     errorCallbacks := errorCallbacks c |}.

Definition OnError (f : ErrorCallback) (c : Collector) : Collector :=
  {| htmlCallbacks := htmlCallbacks c;
     errorCallbacks := errorCallbacks c ++ [f] |}.

(** [HTMLElement.ForEach]: the callback on every match inside the element,
    in document order. *)
Definition ForEach (e : HTMLElement) (sel : SelectorText)
           (callback : nat -> HTMLElement -> Vars -> Vars) (v : Vars) : Vars :=
  snd (fold_left
         (fun '(i, v) n =>
            (S i, callback i (NewHTMLElementFromSelectionNode n) v))
         (goquery.Find (compile sel) (DOM e))
         (O, v)).

(** [handleOnHTML]: for each registered callback, in registration order,
    every match of its selector in the document, in document order. *)
Definition handleOnHTML (c : Collector) (doc : html.Node) (v : Vars) : Vars :=
  fold_left
    (fun v '(sel, f) =>
       fold_left (fun v n => f (NewHTMLElementFromSelectionNode n) v)
                 (goquery.Find (compile sel) doc) v)
    (htmlCallbacks c) v.

Definition handleOnError (c : Collector) (requestURL : string) (err : error)
           (v : Vars) : Vars :=
  fold_left (fun v f => f requestURL err v) (errorCallbacks c) v.

(** [Collector.Visit]. *)
Definition Visit (net : Network) (c : Collector) (url : string) (v : Vars)
  : Vars * option error :=
  match net url with
  | Rejected err => (v, Some err)
  | FetchFailed requestURL err => (handleOnError c requestURL err v, Some err)
  | Received None => (v, None)
  | Received (Some doc) => (handleOnHTML c doc v, None)
  end.

End Collector.

End colly.

(** ** Packages [fmt] and [log], as far as the program uses them *)

Module fmt.

(** [fmt.Println] of string operands: a space between operands and a
    newline at the end. *)
Definition Sprintln (operands : list string) : string :=
  strings.Join operands " " ++ newline.

End fmt.

Module log.

Fixpoint endsWithNewline (s : string) : bool :=
  match s with
  | "" => false
  | String c "" => Ascii.eqb c (ascii_of_nat 10)
  | String _ s' => endsWithNewline s'
  end.

(** [Logger.Output], without the time header of the standard logger: the
    entry is the message, terminated by a newline if it has none. *)
Definition Output (s : string) : string :=
  if endsWithNewline s then s else s ++ newline.

End log.

(** ** Package [scrape]: [internal/scrape/scrape.go] *)

Module scrape.

Import colly.

(** The variables of [ScrapeArticle] that its callbacks capture, and the
    entries the callbacks hand to the standard logger. *)
Record Vars := {
  articleContent : string;
  author : string;
  authors : list string;
  logged : list string
}.

Definition isEmpty (s : string) : bool := String.eqb s "".

(** The callback registered for [div.Page-authors]. *)
Definition onPageAuthors : HTMLCallback Vars :=
  fun e v =>
    let text := Text e in
    let v :=
      if negb (isEmpty text) then
        {| articleContent := articleContent v;
           author := strings.TrimSpace text;
           authors := authors v;
           logged := logged v |}
      else v in
    ForEach e sel_a
      (fun _ el v =>
         let name := strings.TrimSpace (Text el) in
         if negb (isEmpty name) then
           {| articleContent := articleContent v;
              author := author v;
              authors := authors v ++ [name];
              logged := logged v |}
         else v)
      v.

(** The callback registered for [p]. *)
Definition onParagraph : HTMLCallback Vars :=
  fun e v =>
    {| articleContent := articleContent v ++ (Text e ++ newline);
       author := author v;
       authors := authors v;
       logged := logged v |}.

(** The callback registered with [OnError]:
    [log.Printf("Error: %v at %s\n", err, r.Request.URL)]. *)
Definition onError : ErrorCallback Vars :=
  fun requestURL err v =>
    {| articleContent := articleContent v;
       author := author v;
       authors := authors v;
       logged := logged v
                 ++ [log.Output ("Error: " ++ err ++ " at " ++ requestURL
                                 ++ newline)] |}.

(** The collector after the three registrations, in the order of the
    source. *)
Definition collector : Collector Vars :=
  OnError onError
    (OnHTML sel_p onParagraph
       (OnHTML sel_div_Page_authors onPageAuthors (NewCollector Vars))).

Definition initial : Vars :=
  {| articleContent := ""; author := ""; authors := []; logged := [] |}.

(** The ending of [ScrapeArticle], after a visit without error:
    [if author == "" && len(authors) > 0
       { author = strings.Join(authors, " and ") }]. *)
Definition byline_of (v : Vars) : string :=
  if isEmpty (author v) && (0 <? List.length (authors v))%nat
  then strings.Join (authors v) " and "
  else author v.

(** The three results of [ScrapeArticle], and the entries handed to the
    standard logger while it ran. *)
Record Returned := {
  content : string;
  byline : string;
  err : option error;
  log_entries : list string
}.

(** [ScrapeArticle url], on a given network. *)
Definition ScrapeArticle (net : Network) (url : string) : Returned :=
  let '(v, err) := Visit net collector url initial in
  match err with
  | Some e =>
    {| content := ""; byline := ""; err := Some e; log_entries := logged v |}
  | None =>
    {| content := articleContent v; byline := byline_of v; err := None;
       log_entries := logged v |}
  end.

End scrape.

(** ** Package [main]: the command-line entry point *)

Module main.

Import colly.

(** What a run of the program leaves: the bytes on standard output, the
    entries of the standard logger (standard error), the exit status. *)
Record Run := {
  stdout : string;
  stderr : list string;
  exit_status : nat
}.

(** [main], with the value of the flag [-url] and the network. *)
Definition main (net : Network) (url : string) : Run :=
  if scrape.isEmpty url then
    (* log.Fatal("Please provide a URL using the -url flag") *)
    {| stdout := "";
       stderr := [log.Output "Please provide a URL using the -url flag"];
       exit_status := 1 |}
  else
    let r := scrape.ScrapeArticle net url in
    match scrape.err r with
    | Some e =>
      (* log.Fatalf("Error scraping article: %v", err) *)
      {| stdout := "";
         stderr := scrape.log_entries r
                   ++ [log.Output ("Error scraping article: " ++ e)];
         exit_status := 1 |}
    | None =>
      let article := scrape.content r in
      let byline := scrape.byline r in
      let '(out, logs) :=
        if scrape.isEmpty article then
          ("",
           (scrape.log_entries r
            ++ [log.Output (fmt.Sprintln ["No article content found."])])%list)
        else
          (fmt.Sprintln ["Scraped Article Content:"] ++ fmt.Sprintln [article],
           scrape.log_entries r) in
      let out :=
        out ++ (if scrape.isEmpty byline
                then fmt.Sprintln ["No author information found."]
                else fmt.Sprintln ["Byline:"; byline]) in
      {| stdout := out; stderr := logs; exit_status := 0 |}
    end.

End main.

(** ** The single-file form of the program

    The repository also holds the program as one file of package [main]:
    its function [scrapeArticle] has the statements of
    [scrape.ScrapeArticle] and its [main] those of [main.main], with
    [scrapeArticle] called in place of [scrape.ScrapeArticle]. *)

Module standalone.

Definition scrapeArticle : colly.Network -> string -> scrape.Returned :=
  scrape.ScrapeArticle.

Definition main : colly.Network -> string -> main.Run := main.main.

End standalone.

(** ** Document order: the matches of a selector, stated on the tree *)

Module document.

Import html.

(** The nodes of a subtree in document order: a node, then the subtrees of
    its children from first to last. *)
Fixpoint preorder (n : Node) : list Node :=
  n :: flat_map preorder (Children n).

(** The nodes [Find] looks at: the subtrees of the element children. *)
Definition searched (doc : Node) : list Node :=
  flat_map (fun c => match Type_ c with
                     | ElementNode => preorder c
                     | _ => []
                     end)
           (Children doc).

(** The elements of the document matched by each selector of the program,
    in document order. *)
Definition paragraphs (doc : Node) : list Node :=
  filter (colly.compile colly.sel_p) (searched doc).

Definition pageAuthors (doc : Node) : list Node :=
  filter (colly.compile colly.sel_div_Page_authors) (searched doc).

Definition anchors (n : Node) : list Node :=
  filter (colly.compile colly.sel_a) (searched n).

(** The shape of a tree the parser returns: a document node whose children
    other than elements (the doctype, comments) have no children. *)
Definition parsed (doc : Node) : Prop :=
  Type_ doc = DocumentNode
  /\ Forall (fun c => Type_ c = ElementNode \/ Children c = [])
            (Children doc).

End document.

(** ** The traversal: the variables the callbacks leave *)

Module traversal.

Import html colly scrape.

(** The variables when [Visit] returns. *)
Definition traversed (net : Network) (url : string) : Vars :=
  fst (Visit net collector url initial).

Definition nonEmpty (s : string) : bool := negb (isEmpty s).

(** The names one matched element contributes: the trimmed texts of its
    anchors, in document order, the empty ones left out. *)
Definition anchorNames (n : Node) : list string :=
  filter nonEmpty
         (map (fun a => strings.TrimSpace (goquery.Text a))
              (document.anchors n)).

(** The combined byline after the matches [ms], starting from [a]: the
    trimmed text of the last match whose text is not empty. *)
Definition combinedFrom (a : string) (ms : list Node) : string :=
  last (map (fun n => strings.TrimSpace (goquery.Text n))
            (filter (fun n => nonEmpty (goquery.Text n)) ms))
       a.

End traversal.

(** ** Sample pages *)

Module samples.

Import html colly.

Definition text (s : string) : Node := mkNode TextNode s [] [].

Definition element (tag : string) (attrs : list Attribute) (cs : list Node)
  : Node :=
  mkNode ElementNode tag attrs cs.

Definition class (c : string) : Attribute :=
  {| Namespace := ""; Key := "class"; Val := c |}.

(** The tree the parser builds around the content of [<body>]. *)
Definition page (body : list Node) : Node :=
  mkNode DocumentNode "" []
         [element "html" [] [element "head" [] []; element "body" [] body]].

Definition link (name : string) : Node := element "a" [] [text name].

Definition byline_div (cs : list Node) : Node :=
  element "div" [class "Page-authors"] cs.

Definition paragraph (s : string) : Node := element "p" [] [text s].

(** [<div class="Page-authors"><a>Jane Doe</a><a>John Smith</a></div>] *)
Definition two_anchors : Node :=
  page [byline_div [link "Jane Doe"; link "John Smith"]].

(** [<div class="Page-authors"> By <a>Jane Doe</a> </div>] and two
    paragraphs. *)
Definition by_jane : Node :=
  page [byline_div [text " By "; link "Jane Doe"; text " "];
        paragraph "First."; paragraph "Second."].

(** Two bylines, each with direct text. *)
Definition two_bylines : Node :=
  page [byline_div [text "By Jane Doe"]; byline_div [text "By John Smith"]].

(** A byline of two links, then a byline holding a single space. *)
Definition blank_second : Node :=
  page [byline_div [link "Jane Doe"; link "John Smith"]; byline_div [text " "]].


(** A page without any paragraph and without byline. *)
Definition bare : Node := page [element "h1" [] [text "Title"]].

(** The network on which every URL answers with the page [doc]. *)
Definition serving (doc : Node) : Network := fun _ => Received (Some doc).

(** The network on which no host can be reached. *)
Definition unreachable : Network :=
  fun url => FetchFailed url "dial tcp: lookup failed: no such host".

End samples.

(** ** The last rune, read on the reversed string *)

Module utf8_reversed.

Import utf8.

(** The bytes [DecodeLastRuneInString] hands to the decoder, [s[start:end]],
    found on the reversed string: [rs] holds the bytes before [acc], the
    nearest first; [fuel] more bytes may be inspected. *)
Fixpoint lastCandidate (fuel : nat) (rs : bytes) (acc : bytes) {struct rs}
  : bytes :=
  match rs with
  | [] => acc
  | c :: rs' =>
    match fuel with
    | O => c :: acc
    | S fuel' =>
      if RuneStart (bval c) then c :: acc
      else lastCandidate fuel' rs' (c :: acc)
    end
  end.

(** [DecodeLastRuneInString] as a function of the reversed string. *)
Definition lastRune (rs : bytes) : rune * nat :=
  match rs with
  | [] => (RuneError, 0%nat)
  | c0 :: rs' =>
    if (bval c0 <? RuneSelf)%N then (bval c0, 1%nat)
    else
      let q := lastCandidate 3 rs' [c0] in
      let '(r, size) := DecodeRuneInString q in
      if negb (size =? List.length q)%nat then (RuneError, 1%nat)
      else (r, size)
  end.

End utf8_reversed.

(** ** White space at the ends of a string, and well-formed encodings *)

Module whitespace.

Import utf8 unicode.

Local Open Scope N_scope.

(** A continuation byte: [locb <= b <= hicb]. *)
Definition continuation (b : N) : Prop := locb <= b <= hicb.

(** A well-formed entry for a leading byte. *)
Definition wellFormed (sz : nat) (accept : acceptRange) : Prop :=
  (2 <= sz <= 4)%nat /\ locb <= lo accept /\ hi accept <= hicb.

Local Open Scope nat_scope.

(** What follows the part of the string still to be scanned from the end
    does not start with a continuation byte. *)
Definition clean (tail : bytes) : Prop :=
  match tail with
  | [] => True
  | d :: _ => ~ continuation (bval d)
  end.

(** A string made of space runes only, read forward and read backward. *)
Inductive spaces : bytes -> Prop :=
| spaces_nil : spaces []
| spaces_cons (s : bytes) :
    s <> [] ->
    IsSpace (fst (DecodeRuneInString s)) = true ->
    spaces (skipn (snd (DecodeRuneInString s)) s) ->
    spaces s.

Inductive spacesBack : bytes -> Prop :=
| spacesBack_nil : spacesBack []
| spacesBack_snoc (s : bytes) :
    s <> [] ->
    IsSpace (fst (DecodeLastRuneInString s)) = true ->
    spacesBack
      (firstn (List.length s - snd (DecodeLastRuneInString s)) s) ->
    spacesBack s.

(** A string without white space at either end. *)
Definition trimmed (t : bytes) : Prop :=
  t = []
  \/ (IsSpace (fst (DecodeRuneInString t)) = false
      /\ IsSpace (fst (DecodeLastRuneInString t)) = false).

End whitespace.

(** ** A one-pass reading of the traversal, and tidy variables *)

Module observations.

Import html colly scrape.

(** A second reading of the traversal, for comparison with
    [handleOnHTML]: one pass over the searched nodes in document order,
    each node handed to the callbacks whose selector accepts it. *)
Definition visitNode (v : Vars) (n : Node) : Vars :=
  let v :=
    if compile sel_div_Page_authors n
    then onPageAuthors (NewHTMLElementFromSelectionNode n) v else v in
  if compile sel_p n
  then onParagraph (NewHTMLElementFromSelectionNode n) v else v.

Definition onePass (doc : Node) (v : Vars) : Vars :=
  fold_left visitNode (document.searched doc) v.

(** The text nodes of a subtree, in document order. *)
Definition textNodes (n : Node) : list Node :=
  filter (fun m => NodeType_eqb (Type_ m) TextNode) (document.preorder n).

(** The variables hold trimmed strings: the combined byline has no white
    space at either end, and every name is trimmed and not empty. *)
Definition tidy (v : Vars) : Prop :=
  strings.TrimSpace (author v) = author v
  /\ Forall (fun x => x <> "" /\ strings.TrimSpace x = x) (authors v).

End observations.

(** ** The fields of a class attribute *)

Module fields.

Import cascadia.

(** No class separator in the string. *)
Fixpoint noSep (s : string) : bool :=
  match s with
  | "" => true
  | String c s' => negb (isClassSep c) && noSep s'
  end.

(** The string is empty or ends with a class separator. *)
Fixpoint closedRight (s : string) : bool :=
  match s with
  | "" => true
  | String c "" => isClassSep c
  | String _ s' => closedRight s'
  end.

(** The string is empty or starts with a class separator. *)
Definition closedLeft (s : string) : bool :=
  match s with
  | "" => true
  | String c _ => isClassSep c
  end.

End fields.

(** ** More sample pages *)

Module more_samples.

Import html colly samples.

(** A byline element inside a byline element, each with a link. *)
Definition nested_bylines : Node :=
  page [byline_div [link "Jane Doe"; byline_div [link "John Smith"]]].

(** A byline element with several classes. *)
Definition several_classes : Node :=
  element "div" [class "Byline Page-authors dark"] [text "By Jane Doe"].

End more_samples.

(** * Properties *)

(** ** Document order *)

Module document_order.

Import html document.

(** Induction on a node with the hypothesis on every child. *)
Lemma Node_induction (P : Node -> Prop) :
  (forall t d a cs, Forall P cs -> P (mkNode t d a cs)) ->
  forall n, P n.
Proof.
  intros step.
  fix IH 1.
  intros [t d a cs].
  apply step.
  induction cs as [|c cs IHcs].
  - constructor.
  - constructor; [apply IH | exact IHcs].
Qed.

Lemma filter_flat_map {A B} (p : B -> bool) (g : A -> list B) (l : list A) :
  filter p (flat_map g l) = flat_map (fun x => filter p (g x)) l.
Proof.
  induction l as [|x l IH]; simpl; [reflexivity|].
  now rewrite filter_app, IH.
Qed.

Lemma flat_map_ext_Forall {A B} (g h : A -> list B) (l : list A) :
  Forall (fun x => g x = h x) l -> flat_map g l = flat_map h l.
Proof.
  induction 1 as [|x l Hx _ IH]; simpl; [reflexivity|].
  now rewrite Hx, IH.
Qed.

(** [MatchAll] lists the accepted nodes of the subtree in document order. *)
Lemma MatchAll_preorder (s : cascadia.Selector) (n : Node) :
  cascadia.MatchAll s n = filter s (preorder n).
Proof.
  induction n as [t d a cs IH] using Node_induction.
  cbn [cascadia.MatchAll preorder filter Children].
  rewrite filter_flat_map, (flat_map_ext_Forall _ _ IH).
  now destruct (s (mkNode t d a cs)).
Qed.

(** [Find] lists the accepted nodes among the searched ones, in document
    order. *)
Lemma Find_searched (s : cascadia.Selector) (doc : Node) :
  goquery.Find s doc = filter s (searched doc).
Proof.
  unfold goquery.Find, searched.
  rewrite filter_flat_map.
  apply flat_map_ext_Forall, Forall_forall.
  intros c _.
  destruct (Type_ c); try reflexivity.
  apply MatchAll_preorder.
Qed.

(** In a parsed document the searched nodes hold every node of the tree
    that a selector of the program accepts. *)
Lemma compile_element (sel : colly.SelectorText) (n : Node) :
  colly.compile sel n = true -> Type_ n = ElementNode.
Proof.
  destruct sel; cbn; unfold cascadia.tagSelector;
    intros H; apply andb_true_iff in H as [H _];
    try (apply andb_true_iff in H as [H _]);
    now destruct (Type_ n).
Qed.

Lemma searched_covers (sel : colly.SelectorText) (doc : Node) :
  parsed doc ->
  filter (colly.compile sel) (preorder doc)
  = filter (colly.compile sel) (searched doc).
Proof.
  intros [Hroot Hkids].
  destruct doc as [t d a cs]. cbn [Type_ Children] in *.
  cbn [preorder filter Children].
  destruct (colly.compile sel (mkNode t d a cs)) eqn:E.
  { apply compile_element in E. cbn in E. congruence. }
  unfold searched. cbn [Children].
  rewrite !document_order.filter_flat_map.
  apply document_order.flat_map_ext_Forall.
  eapply Forall_impl; [|exact Hkids].
  intros c [Hc|Hc].
  - now rewrite Hc.
  - destruct c as [tc dc ac csc]. cbn [Children] in Hc. subst csc.
    destruct (NodeType_eqb tc ElementNode) eqn:Et.
    + destruct tc; try discriminate. reflexivity.
    + cbn [preorder Children flat_map filter].
      destruct (colly.compile sel (mkNode tc dc ac [])) eqn:Ec.
      * apply compile_element in Ec. cbn [Type_] in Ec. subst tc.
        discriminate.
      * now destruct tc.
Qed.

End document_order.

(** ** Strings as byte lists *)

Module bytefacts.

Lemma append_nil_r (s : string) : s ++ "" = s.
Proof. induction s as [|c s IH]; simpl; [reflexivity | now rewrite IH]. Qed.

Lemma append_assoc (s t u : string) : (s ++ t) ++ u = s ++ (t ++ u).
Proof. induction s as [|c s IH]; simpl; [reflexivity | now rewrite IH]. Qed.

Lemma bytes_of_append (s t : string) :
  bytes_of (s ++ t) = (bytes_of s ++ bytes_of t)%list.
Proof.
  unfold bytes_of.
  induction s as [|c s IH]; simpl; [reflexivity | now rewrite IH].
Qed.

Lemma bytes_of_string_of (l : bytes) : bytes_of (string_of l) = l.
Proof. apply list_ascii_of_string_of_list_ascii. Qed.

Lemma string_of_bytes_of (s : string) : string_of (bytes_of s) = s.
Proof. apply string_of_list_ascii_of_string. Qed.

Lemma bytes_of_nil (s : string) : bytes_of s = [] -> s = "".
Proof. now destruct s. Qed.

Lemma isEmpty_true (s : string) : scrape.isEmpty s = true <-> s = "".
Proof. apply String.eqb_eq. Qed.

Lemma isEmpty_false (s : string) : scrape.isEmpty s = false <-> s <> "".
Proof. apply String.eqb_neq. Qed.

End bytefacts.

(** ** What the callbacks leave in the variables *)

Module traversal_facts.

Import html colly scrape traversal.

Lemma last_cons_default {A} (x d : A) (l : list A) :
  last (x :: l) d = last l x.
Proof.
  revert x d; induction l as [|y l IH]; intros x d; [reflexivity|].
  change (last (x :: y :: l) d) with (last (y :: l) d).
  now rewrite !IH.
Qed.

Lemma combinedFrom_cons (a : string) (n : Node) (ms : list Node) :
  combinedFrom a (n :: ms) =
  combinedFrom (if isEmpty (goquery.Text n) then a
                else strings.TrimSpace (goquery.Text n)) ms.
Proof.
  unfold combinedFrom, nonEmpty; simpl.
  destruct (isEmpty (goquery.Text n)); simpl; [reflexivity|].
  apply last_cons_default.
Qed.

(** The loop of [ForEach] with the callback of [onPageAuthors]. *)
Lemma names_loop (l : list Node) (i : nat) (v : Vars) :
  snd (fold_left
         (fun '(i, v) n =>
            (S i,
             let name :=
               strings.TrimSpace (Text (NewHTMLElementFromSelectionNode n)) in
             if negb (isEmpty name) then
               {| articleContent := articleContent v;
                  author := author v;
                  authors := authors v ++ [name];
                  logged := logged v |}
             else v))
         l (i, v))
  = {| articleContent := articleContent v;
       author := author v;
       authors := authors v
                  ++ filter nonEmpty
                       (map (fun a => strings.TrimSpace (goquery.Text a)) l);
       logged := logged v |}.
Proof.
  revert i v; induction l as [|n l IH]; intros i v.
  - destruct v; simpl. now rewrite app_nil_r.
  - cbn [fold_left]. rewrite IH. cbn [map filter].
    unfold nonEmpty at 2. cbn [Text NewHTMLElementFromSelectionNode].
    destruct (negb (isEmpty (strings.TrimSpace (goquery.Text n)))); cbn.
    + now rewrite <- app_assoc.
    + reflexivity.
Qed.

(** One call of the [div.Page-authors] callback. *)
Lemma onPageAuthors_spec (n : Node) (v : Vars) :
  onPageAuthors (NewHTMLElementFromSelectionNode n) v
  = {| articleContent := articleContent v;
       author := if isEmpty (goquery.Text n) then author v
                 else strings.TrimSpace (goquery.Text n);
       authors := authors v ++ anchorNames n;
       logged := logged v |}.
Proof.
  unfold onPageAuthors, ForEach, anchorNames, document.anchors.
  rewrite names_loop, document_order.Find_searched.
  cbn [DOM Text NewHTMLElementFromSelectionNode].
  now destruct (isEmpty (goquery.Text n)).
Qed.

(** All the calls of the [div.Page-authors] callback. *)
Lemma pageAuthors_loop (ms : list Node) (v : Vars) :
  fold_left (fun v n => onPageAuthors (NewHTMLElementFromSelectionNode n) v)
            ms v
  = {| articleContent := articleContent v;
       author := combinedFrom (author v) ms;
       authors := authors v ++ flat_map anchorNames ms;
       logged := logged v |}.
Proof.
  revert v; induction ms as [|n ms IH]; intros v.
  - destruct v; simpl. now rewrite app_nil_r.
  - cbn [fold_left flat_map]. rewrite IH, onPageAuthors_spec.
    rewrite combinedFrom_cons. cbn. now rewrite <- app_assoc.
Qed.

(** All the calls of the [p] callback. *)
Lemma paragraphs_loop (ps : list Node) (v : Vars) :
  fold_left (fun v n => onParagraph (NewHTMLElementFromSelectionNode n) v)
            ps v
  = {| articleContent :=
         articleContent v
         ++ strcat (map (fun p => goquery.Text p ++ newline) ps);
       author := author v;
       authors := authors v;
       logged := logged v |}.
Proof.
  revert v; induction ps as [|p ps IH]; intros v.
  - destruct v; simpl. now rewrite bytefacts.append_nil_r.
  - cbn [fold_left map strcat fold_right]. rewrite IH.
    cbn. now rewrite bytefacts.append_assoc.
Qed.

(** The variables after a visit that received the page [doc]. *)
Lemma traversed_page (net : Network) (url : string) (doc : Node) :
  net url = Received (Some doc) ->
  traversed net url
  = {| articleContent :=
         strcat (map (fun p => goquery.Text p ++ newline)
                     (document.paragraphs doc));
       author := combinedFrom "" (document.pageAuthors doc);
       authors := flat_map anchorNames (document.pageAuthors doc);
       logged := [] |}.
Proof.
  intros Hnet. unfold traversed, Visit. rewrite Hnet.
  cbn [fst]. unfold handleOnHTML, collector. cbn.
  rewrite pageAuthors_loop, paragraphs_loop.
  rewrite !document_order.Find_searched. reflexivity.
Qed.

End traversal_facts.

(** ** The decoders of [unicode/utf8] *)

Module utf8_facts.

Import utf8 utf8_reversed whitespace.

Local Open Scope list_scope.
Local Open Scope N_scope.


Ltac b2p :=
  repeat match goal with
  | H : (_ || _)%bool = true |- _ => apply orb_true_iff in H
  | H : (_ || _)%bool = false |- _ => apply orb_false_iff in H; destruct H
  | H : (_ && _)%bool = true |- _ => apply andb_true_iff in H; destruct H
  | H : (_ && _)%bool = false |- _ => apply andb_false_iff in H
  | H : negb _ = true |- _ => apply negb_true_iff in H
  | H : negb _ = false |- _ => apply negb_false_iff in H
  | H : (_ <? _) = true |- _ => apply N.ltb_lt in H
  | H : (_ <? _) = false |- _ => apply N.ltb_ge in H
  | H : (_ <=? _) = true |- _ => apply N.leb_le in H
  | H : (_ <=? _) = false |- _ => apply N.leb_gt in H
  | H : (_ =? _) = true |- _ => apply N.eqb_eq in H
  | H : (_ =? _) = false |- _ => apply N.eqb_neq in H
  | H : (_ <? _)%nat = true |- _ => apply Nat.ltb_lt in H
  | H : (_ <? _)%nat = false |- _ => apply Nat.ltb_ge in H
  | H : (_ <=? _)%nat = true |- _ => apply Nat.leb_le in H
  | H : (_ <=? _)%nat = false |- _ => apply Nat.leb_gt in H
  | H : (_ =? _)%nat = true |- _ => apply Nat.eqb_eq in H
  | H : (_ =? _)%nat = false |- _ => apply Nat.eqb_neq in H
  end.

Ltac split_if :=
  match goal with
  | |- context [if ?c then _ else _] => destruct c eqn:?
  end.



(** The three kinds of first byte. *)
Lemma first_kind (b : N) :
  (b < RuneSelf /\ first b = as_)
  \/ (RuneSelf <= b /\ first b = xx)
  \/ (0xC2 <= b /\ (as_ <=? first b) = false
      /\ wellFormed (N.to_nat (N.land (first b) 7))
                    (acceptRanges (N.shiftr (first b) 4))).
Proof.
  unfold first, RuneSelf.
  repeat split_if; b2p;
    try (left; split; [lia | reflexivity]);
    try (right; left; split; [lia | reflexivity]);
    right; right; (split; [lia|]); (split; [reflexivity|]);
    unfold wellFormed; cbn; unfold locb, hicb; lia.
Qed.

Section Multibyte.

Variable sz : nat.
Variable accept : acceptRange.
Hypothesis wf : wellFormed sz accept.

Ltac sizes := destruct wf as ((? & ?) & ? & ?);
  destruct sz as [|[|[|[|[|?]]]]]; try lia.

Ltac crunch :=
  unfold decodeMultibyte;
  cbn -[N.lor N.land N.shiftl N.ltb N.leb bval Nat.ltb];
  repeat (split_if; cbn -[N.lor N.land N.shiftl N.ltb N.leb bval Nat.ltb]);
  unfold continuation in *; unfold locb, hicb in *; b2p;
  cbn [List.length] in *;
  try reflexivity; try discriminate; try lia; try (exfalso; lia).

Lemma multibyte_size (s : bytes) :
  decodeMultibyte sz accept s = (RuneError, 1%nat)
  \/ (snd (decodeMultibyte sz accept s) = sz /\ (sz <= List.length s)%nat).
Proof.
  sizes; destruct s as [|c0 [|c1 [|c2 [|c3 s]]]]; crunch; auto; right; lia.
Qed.

Lemma multibyte_app (s t : bytes) :
  (2 <= snd (decodeMultibyte sz accept s))%nat ->
  decodeMultibyte sz accept (s ++ t) = decodeMultibyte sz accept s.
Proof.
  sizes; destruct s as [|c0 [|c1 [|c2 [|c3 s]]]]; cbn [app];
    try (rewrite length_app); crunch.
  all: destruct t as [|d0 [|d1 t]]; crunch.
Qed.

Lemma multibyte_app_ascii (s t : bytes) (a : byte) :
  s <> [] -> bval a < RuneSelf ->
  decodeMultibyte sz accept (s ++ a :: t) = decodeMultibyte sz accept s.
Proof.
  unfold RuneSelf. intros Hs Ha.
  sizes; destruct s as [|c0 [|c1 [|c2 [|c3 s]]]]; try congruence; cbn [app];
    crunch.
  all: try (destruct t as [|d0 [|d1 t]]; crunch).
Qed.

Lemma multibyte_break (c0 c1 : byte) (t : bytes) :
  ~ continuation (bval c1) ->
  decodeMultibyte sz accept (c0 :: c1 :: t) = (RuneError, 1%nat).
Proof.
  intros Hc. sizes; destruct t as [|c2 [|c3 t]]; crunch.
Qed.

Lemma multibyte_single (c0 : byte) :
  decodeMultibyte sz accept [c0] = (RuneError, 1%nat).
Proof. sizes; crunch. Qed.

Lemma multibyte_continuations (s : bytes) (i : nat) :
  (1 <= i < snd (decodeMultibyte sz accept s))%nat ->
  continuation (bval (nth i s zero)).
Proof.
  sizes; destruct s as [|c0 [|c1 [|c2 [|c3 s]]]]; crunch.
  all: intros; destruct i as [|[|[|[|i]]]]; cbn [nth]; try lia.
Qed.

Lemma multibyte_valid_size (s : bytes) :
  decodeMultibyte sz accept s = (RuneError, 1%nat)
  \/ (2 <= snd (decodeMultibyte sz accept s))%nat.
Proof.
  destruct (multibyte_size s) as [H|[H _]]; [now left | right].
  destruct wf as ((? & ?) & _). lia.
Qed.

End Multibyte.

(** *** The forward decoder *)

Lemma Decode_ascii (c : byte) (t : bytes) :
  bval c < RuneSelf -> DecodeRuneInString (c :: t) = (bval c, 1%nat).
Proof.
  intros Hc. unfold DecodeRuneInString.
  destruct (first_kind (bval c)) as [[_ E]|[[H _]|[H _]]];
    [rewrite E; reflexivity | unfold RuneSelf in *; lia ..].
Qed.

(** The result of the decoder by the kind of first byte. *)
Lemma Decode_kind (c : byte) :
  (bval c < RuneSelf
   /\ forall t, DecodeRuneInString (c :: t) = (bval c, 1%nat))
  \/ (RuneSelf <= bval c
      /\ forall t, DecodeRuneInString (c :: t) = (RuneError, 1%nat))
  \/ (0xC2 <= bval c
      /\ exists sz accept,
          wellFormed sz accept
          /\ forall t, DecodeRuneInString (c :: t)
                       = decodeMultibyte sz accept (c :: t)).
Proof.
  destruct (first_kind (bval c)) as [[H E]|[[H E]|(H & E & W)]].
  - left. split; [exact H | intros t; now apply Decode_ascii].
  - right; left. split; [exact H|].
    intros t. unfold DecodeRuneInString. rewrite E. reflexivity.
  - right; right. split; [exact H|].
    eexists _, _. split; [exact W|].
    intros t. unfold DecodeRuneInString. now rewrite E.
Qed.

Lemma Decode_size (s : bytes) :
  s <> [] ->
  (1 <= snd (DecodeRuneInString s) <= List.length s)%nat.
Proof.
  destruct s as [|c t]; [congruence|]. intros _.
  destruct (Decode_kind c) as [[_ E]|[[_ E]|(_ & sz & acc & W & E)]];
    rewrite E; try (cbn; lia).
  destruct (multibyte_size W (c :: t)) as [E'|[E1 E2]].
  - rewrite E'. cbn. lia.
  - rewrite E1. destruct W as ((? & ?) & _). lia.
Qed.

(** A decoded encoding of two bytes or more is not changed by what
    follows it. *)
Lemma Decode_app (s t : bytes) :
  (2 <= snd (DecodeRuneInString s))%nat ->
  DecodeRuneInString (s ++ t) = DecodeRuneInString s.
Proof.
  destruct s as [|c s]; [cbn; lia|]. cbn [app].
  destruct (Decode_kind c) as [[_ E]|[[_ E]|(_ & sz & acc & W & E)]];
    rewrite !E; try (cbn; lia).
  apply (multibyte_app W (c :: s)).
Qed.

(** An ASCII byte after a string does not change the first rune of the
    string. *)
Lemma Decode_app_ascii (s t : bytes) (a : byte) :
  s <> [] -> bval a < RuneSelf ->
  DecodeRuneInString (s ++ a :: t) = DecodeRuneInString s.
Proof.
  destruct s as [|c s]; [congruence|]. intros _ Ha. cbn [app].
  destruct (Decode_kind c) as [[_ E]|[[_ E]|(_ & sz & acc & W & E)]];
    rewrite !E; try reflexivity.
  apply (multibyte_app_ascii W (s:=c :: s)); [discriminate | exact Ha].
Qed.

(** A byte that is not ASCII, alone or followed by a byte that is not a
    continuation byte, decodes with width 1. *)
Lemma Decode_single (c : byte) :
  snd (DecodeRuneInString [c]) = 1%nat.
Proof.
  assert ([c] <> []) as Hne by discriminate.
  pose proof (Decode_size Hne) as H. cbn [List.length] in H. lia.
Qed.

Lemma Decode_break (c0 c1 : byte) (t : bytes) :
  ~ continuation (bval c1) ->
  snd (DecodeRuneInString (c0 :: c1 :: t)) = 1%nat.
Proof.
  intros Hc.
  destruct (Decode_kind c0) as [[_ E]|[[_ E]|(_ & sz & acc & W & E)]];
    rewrite E; try reflexivity.
  now rewrite (multibyte_break W).
Qed.

(** The shape of an encoding of two bytes or more: a leading byte, then
    continuation bytes. *)
Lemma Decode_multibyte_shape (s : bytes) :
  (2 <= snd (DecodeRuneInString s))%nat ->
  0xC2 <= bval (nth 0 s zero)
  /\ forall i, (1 <= i < snd (DecodeRuneInString s))%nat ->
               continuation (bval (nth i s zero)).
Proof.
  destruct s as [|c s]; [cbn; lia|].
  destruct (Decode_kind c) as [[_ E]|[[_ E]|(H & sz & acc & W & E)]];
    rewrite !E; try (cbn; lia).
  intros _. split; [exact H|].
  intros i Hi. now apply (multibyte_continuations W (c :: s)).
Qed.

(** A rune other than [RuneError] of width 1 is an ASCII byte. *)
Lemma Decode_width1 (s : bytes) (r : rune) :
  DecodeRuneInString s = (r, 1%nat) ->
  r = RuneError \/ exists c t, s = c :: t /\ bval c < RuneSelf /\ r = bval c.
Proof.
  destruct s as [|c s]; [cbn; intros [= <-]; now left|].
  destruct (Decode_kind c) as [[H E]|[[_ E]|(_ & sz & acc & W & E)]];
    rewrite !E.
  - intros [= <-]. right. now exists c, s.
  - intros [= <-]. now left.
  - destruct (multibyte_valid_size W (c :: s)) as [E'|E'].
    + rewrite E'. intros [= <-]. now left.
    + intros E''. rewrite E'' in E'. cbn in E'. lia.
Qed.

Local Open Scope nat_scope.


Lemma scanBack_app (fuel : nat) (p l : bytes) (lim i : nat) :
  1 <= lim ->
  scanBack fuel (p ++ l) (List.length p + lim) (Some (List.length p + i))
  = option_map (Nat.add (List.length p)) (scanBack fuel l lim (Some i)).
Proof.
  intros Hlim. revert i; induction fuel as [|fuel IH]; intros i; [reflexivity|].
  cbn [scanBack].
  destruct (Nat.ltb_spec i lim) as [Hi|Hi].
  - destruct (Nat.ltb_spec (List.length p + i) (List.length p + lim)); [reflexivity | lia].
  - destruct (Nat.ltb_spec (List.length p + i) (List.length p + lim)); [lia|].
    rewrite app_nth2_plus.
    destruct (RuneStart _); [reflexivity|].
    destruct i as [|i]; [lia|].
    rewrite Nat.add_succ_r. apply IH.
Qed.

Lemma scanBack_some (fuel : nat) (l : bytes) (lim i : nat) :
  1 <= lim -> exists j, scanBack fuel l lim (Some i) = Some j.
Proof.
  intros Hlim. revert i; induction fuel as [|fuel IH]; intros i; cbn [scanBack].
  - now exists i.
  - destruct (Nat.ltb_spec i lim); [now exists i|].
    destruct (RuneStart _); [now exists i|].
    destruct i as [|i]; [lia | apply IH].
Qed.

(** The scans do not depend on the fuel once there is enough of it. *)
Lemma scanBack_fuel (fuel : nat) (s : bytes) (lim i : nat) :
  i + 2 <= lim + fuel ->
  scanBack (S fuel) s lim (Some i) = scanBack fuel s lim (Some i).
Proof.
  revert i; induction fuel as [|fuel IH]; intros i Hi.
  - cbn [scanBack]. destruct (Nat.ltb_spec i lim); [reflexivity | lia].
  - change (scanBack (S (S fuel)) s lim (Some i))
      with (if i <? lim then Some i
            else if RuneStart (bval (nth i s zero)) then Some i
                 else scanBack (S fuel) s lim
                               (match i with O => None | S j => Some j end)).
    change (scanBack (S fuel) s lim (Some i))
      with (if i <? lim then Some i
            else if RuneStart (bval (nth i s zero)) then Some i
                 else scanBack fuel s lim
                               (match i with O => None | S j => Some j end)).
    destruct (i <? lim); [reflexivity|].
    destruct (RuneStart _); [reflexivity|].
    destruct i as [|j]; [now destruct fuel | apply IH; lia].
Qed.

(** Only the last five bytes matter. *)
Lemma DecodeLast_suffix (p l : bytes) :
  5 <= List.length l ->
  DecodeLastRuneInString (p ++ l) = DecodeLastRuneInString l.
Proof.
  intros Hl. unfold DecodeLastRuneInString.
  rewrite length_app.
  destruct (Nat.eqb_spec (List.length p + List.length l) 0) as [?|_]; [lia|].
  destruct (Nat.eqb_spec (List.length l) 0) as [?|_]; [lia|].
  replace (List.length p + List.length l - 1)
    with (List.length p + (List.length l - 1)) by lia.
  rewrite !app_nth2_plus.
  destruct (_ <? RuneSelf)%N; [reflexivity|].
  replace (List.length p + List.length l - UTFMax)
    with (List.length p + (List.length l - UTFMax)) by (unfold UTFMax; lia).
  destruct (List.length l - 1) as [|k] eqn:Ek; [lia|].
  rewrite Nat.add_succ_r.
  rewrite scanBack_app by (unfold UTFMax; lia).
  destruct (@scanBack_some UTFMax l (List.length l - UTFMax) k) as [j Ej];
    [unfold UTFMax; lia|].
  rewrite Ej. cbn [option_map].
  rewrite skipn_app, skipn_all2 by lia.
  replace (List.length p + j - List.length p) with j by lia.
  cbn [app].
  replace (List.length p + List.length l - (List.length p + j))
    with (List.length l - j) by lia.
  destruct (DecodeRuneInString _) as [r size].
  destruct (Nat.eqb_spec (j + size) (List.length l));
    destruct (Nat.eqb_spec (List.length p + j + size)
                           (List.length p + List.length l));
    try reflexivity; lia.
Qed.

Ltac last_crunch :=
  cbn -[DecodeRuneInString RuneStart bval N.ltb];
  repeat (match goal with
          | |- context [if ?c then _ else _] => destruct c eqn:?
          end; cbn -[DecodeRuneInString RuneStart bval N.ltb]);
  try reflexivity; try congruence.

(** The backward decoder, read on the reversed string. *)
Lemma DecodeLast_lastRune (s : bytes) :
  DecodeLastRuneInString s = lastRune (rev s).
Proof.
  rewrite <- (rev_involutive s) at 1.
  destruct (rev s) as [|c0 [|c1 [|c2 [|c3 [|c4 rs]]]]].
  1-5: unfold DecodeLastRuneInString, lastRune; last_crunch.
  - cbn [rev]. repeat rewrite <- app_assoc. cbn [app].
    rewrite DecodeLast_suffix by (cbn; lia).
    unfold DecodeLastRuneInString, lastRune; last_crunch.
Qed.

Lemma RuneStart_eq (c : byte) :
  RuneStart (bval c) = negb ((locb <=? bval c)%N && (bval c <=? hicb)%N).
Proof. destruct c as [[] [] [] [] [] [] [] []]; reflexivity. Qed.

Lemma RuneStart_continuation (c : byte) :
  RuneStart (bval c) = false <-> continuation (bval c).
Proof.
  rewrite RuneStart_eq, negb_false_iff, andb_true_iff, !N.leb_le.
  reflexivity.
Qed.

Lemma RuneStart_true (c : byte) :
  ~ continuation (bval c) -> RuneStart (bval c) = true.
Proof.
  intros H. destruct (RuneStart (bval c)) eqn:E; [reflexivity|].
  now apply RuneStart_continuation in E.
Qed.

(** The candidate is a suffix of the string. *)
Lemma lastCandidate_suffix (fuel : nat) (rs acc : bytes) :
  exists rest, rev rs ++ acc = rest ++ lastCandidate fuel rs acc.
Proof.
  revert fuel acc; induction rs as [|c rs IH]; intros fuel acc.
  - now exists [].
  - cbn [lastCandidate rev]. rewrite <- app_assoc. cbn [app].
    destruct fuel as [|fuel]; [now exists (rev rs)|].
    destruct (RuneStart (bval c)); [now exists (rev rs) | apply IH].
Qed.

Lemma lastCandidate_nonempty (fuel : nat) (rs acc : bytes) :
  acc <> [] -> lastCandidate fuel rs acc <> [].
Proof.
  revert fuel acc; induction rs as [|c rs IH]; intros fuel acc Hacc;
    cbn [lastCandidate]; [exact Hacc|].
  destruct fuel as [|fuel]; [discriminate|].
  destruct (RuneStart (bval c)); [discriminate | apply IH; discriminate].
Qed.

(** The three outcomes of the backward decoder. *)
Lemma DecodeLast_cases (s : bytes) :
  s <> [] ->
  exists p c,
    s = p ++ [c]
    /\ ((bval c < RuneSelf)%N /\ DecodeLastRuneInString s = (bval c, 1)
        \/ (RuneSelf <= bval c)%N
           /\ (DecodeLastRuneInString s = (RuneError, 1)
               \/ exists p' q,
                   s = p' ++ q /\ q <> []
                   /\ DecodeRuneInString q = DecodeLastRuneInString s
                   /\ snd (DecodeLastRuneInString s) = List.length q)).
Proof.
  intros Hs. rewrite DecodeLast_lastRune.
  assert (Hrev : s = rev (rev s)) by now rewrite rev_involutive.
  destruct (rev s) as [|c rs]; [now destruct s|].
  cbn [rev] in Hrev. exists (rev rs), c. split; [exact Hrev|].
  unfold lastRune.
  destruct (N.ltb_spec (bval c) RuneSelf) as [Hc|Hc]; [now left|].
  right. split; [exact Hc|].
  destruct (lastCandidate_suffix 3 rs [c]) as [rest Hrest].
  pose proof (@lastCandidate_nonempty 3 rs [c]) as Hne.
  set (q := lastCandidate 3 rs [c]) in *.
  destruct (DecodeRuneInString q) as [r size] eqn:E.
  destruct (Nat.eqb_spec size (List.length q)) as [Hsize|Hsize]; cbn [negb];
    [right | now left].
  exists rest, q. repeat split.
  - now rewrite Hrev, Hrest.
  - apply Hne. discriminate.
  - exact E.
  - exact Hsize.
Qed.

Lemma DecodeLast_size (s : bytes) :
  s <> [] -> 1 <= snd (DecodeLastRuneInString s) <= List.length s.
Proof.
  intros Hs.
  destruct (DecodeLast_cases Hs) as (p & c & Hp & [[_ E]|[_ [E|(p' & q & Hq & Hne & _ & E)]]]).
  - rewrite E, Hp, length_app. cbn. lia.
  - rewrite E, Hp, length_app. cbn. lia.
  - rewrite E.
    pose proof (f_equal (@List.length _) Hq) as HL. rewrite length_app in HL.
    destruct q; [congruence | cbn [List.length] in *; lia].
Qed.

(** An ASCII byte at the end is the last rune. *)
Lemma DecodeLast_ascii (p : bytes) (c : byte) :
  (bval c < RuneSelf)%N ->
  DecodeLastRuneInString (p ++ [c]) = (bval c, 1).
Proof.
  intros Hc. rewrite DecodeLast_lastRune, rev_app_distr. cbn.
  destruct (N.ltb_spec (bval c) RuneSelf); [reflexivity | lia].
Qed.

Lemma Decode_width_le (s : bytes) : snd (DecodeRuneInString s) <= 4.
Proof.
  destruct s as [|c s]; [cbn; lia|].
  destruct (Decode_kind c) as [[_ E]|[[_ E]|(_ & sz & acc & W & E)]];
    rewrite E; try (cbn; lia).
  destruct (multibyte_size W (c :: s)) as [E'|[E1 E2]].
  - rewrite E'. cbn. lia.
  - rewrite E1. destruct W as ((? & ?) & _). lia.
Qed.

(** A well-formed encoding of two bytes or more at the end of a string is
    its last rune. *)
Lemma DecodeLast_encoding (p q : bytes) :
  2 <= snd (DecodeRuneInString q) ->
  snd (DecodeRuneInString q) = List.length q ->
  DecodeLastRuneInString (p ++ q) = DecodeRuneInString q.
Proof.
  intros H2 Hlen.
  destruct (Decode_multibyte_shape q H2) as [Hhead Hcont].
  pose proof (Decode_width_le q) as H4.
  assert (Hstart : RuneStart (bval (nth 0 q zero)) = true).
  { apply RuneStart_true. unfold continuation, locb, hicb. lia. }
  assert (Hnot : forall i, 1 <= i < List.length q ->
                           RuneStart (bval (nth i q zero)) = false).
  { intros i Hi. apply RuneStart_continuation, Hcont. lia. }
  assert (Hhigh : forall i, 1 <= i < List.length q ->
                            (bval (nth i q zero) <? RuneSelf)%N = false).
  { intros i Hi. apply N.ltb_ge.
    assert (continuation (bval (nth i q zero))) as [Hc _] by (apply Hcont; lia).
    exact Hc. }
  rewrite DecodeLast_lastRune, rev_app_distr.
  destruct q as [|q0 [|q1 [|q2 [|q3 [|q4 q]]]]]; cbn [List.length] in *;
    try lia; cbn [rev app]; unfold lastRune; cbn [nth] in Hstart.
  - pose proof (Hhigh 1) as A1. cbn [nth] in A1. rewrite A1 by lia.
    cbn [lastCandidate]. rewrite Hstart.
    destruct (DecodeRuneInString [q0; q1]) as [r size] eqn:E.
    cbn [snd] in Hlen. subst size. reflexivity.
  - pose proof (Hhigh 2) as A2. cbn [nth] in A2. rewrite A2 by lia.
    cbn [lastCandidate].
    pose proof (Hnot 1) as B1. cbn [nth] in B1. rewrite B1 by lia.
    rewrite Hstart.
    destruct (DecodeRuneInString [q0; q1; q2]) as [r size] eqn:E.
    cbn [snd] in Hlen. subst size. reflexivity.
  - pose proof (Hhigh 3) as A3. cbn [nth] in A3. rewrite A3 by lia.
    cbn [lastCandidate].
    pose proof (Hnot 2) as B2. cbn [nth] in B2. rewrite B2 by lia.
    pose proof (Hnot 1) as B1. cbn [nth] in B1. rewrite B1 by lia.
    rewrite Hstart.
    destruct (DecodeRuneInString [q0; q1; q2; q3]) as [r size] eqn:E.
    cbn [snd] in Hlen. subst size. reflexivity.
Qed.

End utf8_facts.

(** ** [strings.TrimSpace] and [strings.Join] *)

Module strings_facts.

Import utf8 unicode strings whitespace utf8_facts.

Local Open Scope list_scope.
Local Open Scope nat_scope.


Lemma asciiSpace_IsSpace (c : byte) :
  (bval c < RuneSelf)%N -> IsSpace (bval c) = asciiSpace (bval c).
Proof.
  destruct c as [[] [] [] [] [] [] [] []]; intros H; try reflexivity;
    vm_compute in H; discriminate.
Qed.

(** A space rune is decoded from an ASCII byte or from a well-formed
    encoding of two bytes or more. *)
Lemma Decode_space (s : bytes) :
  IsSpace (fst (DecodeRuneInString s)) = true ->
  (exists c t, s = c :: t /\ (bval c < RuneSelf)%N
               /\ DecodeRuneInString s = (bval c, 1))
  \/ 2 <= snd (DecodeRuneInString s).
Proof.
  intros Hsp.
  destruct s as [|c t]; [discriminate|].
  assert (Hne : c :: t <> []) by discriminate.
  pose proof (Decode_size Hne) as Hsize.
  destruct (DecodeRuneInString (c :: t)) as [r n] eqn:E. cbn [fst snd] in *.
  destruct (Nat.eq_dec n 1) as [->|]; [|right; lia].
  left. destruct (Decode_width1 _ E) as [->|(c' & t' & [= <- <-] & Hc & ->)];
    [discriminate|].
  now exists c, t.
Qed.

Lemma Decode_space_head (s : bytes) :
  IsSpace (fst (DecodeRuneInString s)) = true ->
  ~ continuation (bval (nth 0 s zero)).
Proof.
  intros Hsp. unfold continuation, locb, hicb.
  destruct (Decode_space s Hsp) as [(c & t & -> & Hc & _)|H2].
  - cbn [nth]. unfold RuneSelf in Hc. lia.
  - destruct (Decode_multibyte_shape s H2) as [Hh _]. lia.
Qed.

(** The first rune of a string that starts a longer string without a space
    rune at its head is not a space either. *)
Lemma Decode_prefix_nonspace (w rest : bytes) :
  w <> [] ->
  IsSpace (fst (DecodeRuneInString (w ++ rest))) = false ->
  IsSpace (fst (DecodeRuneInString w)) = false.
Proof.
  intros Hw Hns.
  destruct (IsSpace (fst (DecodeRuneInString w))) eqn:E; [|reflexivity].
  destruct (Decode_space w E) as [(c & t & -> & Hc & E')|H2].
  - cbn [app] in Hns. rewrite Decode_ascii in Hns by exact Hc.
    rewrite E' in E. cbn [fst] in *. congruence.
  - rewrite (Decode_app w rest H2) in Hns. congruence.
Qed.

(** A space rune at the end: its bytes are the decoded encoding. *)
Lemma DecodeLast_space (w : bytes) :
  IsSpace (fst (DecodeLastRuneInString w)) = true ->
  exists p q,
    w = p ++ q /\ q <> []
    /\ List.length q = snd (DecodeLastRuneInString w)
    /\ DecodeRuneInString q = DecodeLastRuneInString w.
Proof.
  intros Hsp.
  assert (Hw : w <> []) by (intros ->; discriminate).
  destruct (DecodeLast_cases Hw)
    as (p & c & Hp & [[Hc E]|[_ [E|(p' & q & Hq & Hne & E1 & E2)]]]).
  - exists p, [c]. rewrite E. repeat split; [exact Hp | discriminate |].
    now apply Decode_ascii.
  - rewrite E in Hsp. discriminate.
  - exists p', q. repeat split; [exact Hq | exact Hne | now symmetry | exact E1].
Qed.


Lemma Decode_before_clean (c : byte) (tail : bytes) :
  clean tail -> snd (DecodeRuneInString (c :: tail)) = 1.
Proof.
  destruct tail as [|d tail]; intros Hc.
  - apply Decode_single.
  - now apply Decode_break.
Qed.

(** The cut of [TrimRightFunc] falls right after the last rune found. *)
Lemma cut_width (w tail : bytes) :
  w <> [] -> clean tail ->
  let j := List.length w - snd (DecodeLastRuneInString w) in
  (if (RuneSelf <=? bval (nth j (w ++ tail) zero))%N
   then j + snd (DecodeRuneInString (skipn j (w ++ tail)))
   else j + 1)
  = List.length w.
Proof.
  intros Hw Hclean. cbv zeta.
  destruct (DecodeLast_cases Hw)
    as (p & c & Hp & [[Hc E]|[Hc [E|(p' & q & Hq & Hne & E1 & E2)]]]).
  - rewrite E. cbn [snd]. subst w. rewrite length_app. cbn [List.length].
    replace (List.length p + 1 - 1) with (List.length p + 0) by lia.
    rewrite <- app_assoc, app_nth2_plus. cbn [app nth].
    destruct (N.leb_spec RuneSelf (bval c)); lia.
  - rewrite E. cbn [snd]. subst w. rewrite length_app. cbn [List.length].
    replace (List.length p + 1 - 1) with (List.length p + 0) by lia.
    rewrite <- app_assoc, app_nth2_plus. cbn [app nth].
    destruct (N.leb_spec RuneSelf (bval c)); [|lia].
    rewrite skipn_app, skipn_all2 by lia.
    replace (List.length p + 0 - List.length p) with 0 by lia.
    cbn [skipn app]. rewrite (Decode_before_clean c _ Hclean). lia.
  - rewrite E2. clear Hp Hc. subst w. rewrite length_app.
    replace (List.length p' + List.length q - List.length q)
      with (List.length p' + 0) by lia.
    rewrite <- !app_assoc, app_nth2_plus.
    rewrite skipn_app, skipn_all2 by lia.
    replace (List.length p' + 0 - List.length p') with 0 by lia.
    cbn [skipn app].
    destruct q as [|q0 q]; [congruence|]. cbn [app nth].
    destruct q as [|q1 q].
    + (* one byte *)
      destruct (N.leb_spec RuneSelf (bval q0)); [|cbn; lia].
      cbn [app]. rewrite (Decode_before_clean q0 _ Hclean). cbn. lia.
    + assert (H2 : 2 <= snd (DecodeRuneInString (q0 :: q1 :: q))).
      { rewrite E1, E2. cbn. lia. }
      destruct (Decode_multibyte_shape _ H2) as [Hh _]. cbn [nth] in Hh.
      destruct (N.leb_spec RuneSelf (bval q0)); [|unfold RuneSelf in *; lia].
      change (q0 :: (q1 :: q) ++ tail) with ((q0 :: q1 :: q) ++ tail).
      rewrite (Decode_app _ tail H2), E1, E2. lia.
Qed.


(** *** The loops of [indexFunc] and [lastIndexFunc] *)

Lemma indexFunc_loop_spec (fuel : nat) (rest : bytes) (i : nat) :
  List.length rest < fuel ->
  match indexFunc_loop IsSpace false fuel rest i with
  | None => spaces rest
  | Some j =>
    exists k, j = i + k /\ k < List.length rest
              /\ IsSpace (fst (DecodeRuneInString (skipn k rest))) = false
  end.
Proof.
  revert rest i; induction fuel as [|fuel IH]; intros rest i Hfuel; [lia|].
  cbn [indexFunc_loop].
  destruct rest as [|c rest]; [constructor|].
  assert (Hne : c :: rest <> []) by discriminate.
  pose proof (Decode_size Hne) as Hsize.
  destruct (DecodeRuneInString (c :: rest)) as [r size] eqn:E.
  cbn [snd] in Hsize.
  destruct (IsSpace r) eqn:Hr; cbn [Bool.eqb].
  - assert (Hlen : List.length (skipn size (c :: rest)) < fuel).
    { rewrite length_skipn. cbn [List.length] in *. lia. }
    specialize (IH (skipn size (c :: rest)) (i + size) Hlen).
    destruct (indexFunc_loop IsSpace false fuel _ _) as [j|].
    + destruct IH as (k & -> & Hk & Hns).
      exists (size + k). rewrite length_skipn in Hk.
      rewrite skipn_skipn in Hns.
      replace (size + k) with (k + size) by lia.
      repeat split; [lia | lia | exact Hns].
    + apply spaces_cons; [exact Hne | now rewrite E | now rewrite E].
  - exists 0. cbn [skipn]. rewrite E. cbn [List.length].
    repeat split; [lia | lia | exact Hr].
Qed.

Lemma skipn_cut (s p q : bytes) (i : nat) :
  i <= List.length s -> firstn i s = p ++ q ->
  skipn (i - List.length q) s = q ++ skipn i s.
Proof.
  intros Hi Hpq.
  assert (HL : i = List.length p + List.length q).
  { rewrite <- length_app, <- Hpq, length_firstn. lia. }
  rewrite <- (firstn_skipn i s) at 1. rewrite Hpq, <- app_assoc.
  rewrite skipn_app, skipn_all2 by lia.
  replace (i - List.length q - List.length p) with 0 by lia.
  reflexivity.
Qed.

Lemma lastIndexFunc_loop_spec (s : bytes) (fuel i : nat) :
  i <= List.length s -> i < fuel -> clean (skipn i s) ->
  match lastIndexFunc_loop IsSpace false fuel s i with
  | None => spacesBack (firstn i s)
  | Some j =>
    exists i',
      0 < i' <= i /\ clean (skipn i' s)
      /\ IsSpace (fst (DecodeLastRuneInString (firstn i' s))) = false
      /\ j = i' - snd (DecodeLastRuneInString (firstn i' s))
  end.
Proof.
  revert i; induction fuel as [|fuel IH]; intros i Hi Hfuel Hclean; [lia|].
  cbn [lastIndexFunc_loop].
  destruct (Nat.eqb_spec i 0) as [->|Hpos]; [constructor|].
  assert (Hne : firstn i s <> []).
  { intros H. apply (f_equal (@List.length _)) in H.
    rewrite length_firstn in H. cbn in H. lia. }
  assert (Hlen : List.length (firstn i s) = i)
    by (rewrite length_firstn; lia).
  pose proof (DecodeLast_size Hne) as Hsize. rewrite Hlen in Hsize.
  destruct (DecodeLastRuneInString (firstn i s)) as [r size] eqn:E.
  cbn [snd] in Hsize.
  destruct (IsSpace r) eqn:Hr; cbn [Bool.eqb].
  - assert (Hclean' : clean (skipn (i - size) s)).
    { assert (Hsp : IsSpace (fst (DecodeLastRuneInString (firstn i s))) = true)
        by now rewrite E.
      destruct (DecodeLast_space _ Hsp) as (p & q & Hpq & Hq & Hlq & Hdq).
      rewrite E in Hlq, Hdq. cbn [snd] in Hlq. rewrite <- Hlq.
      rewrite (skipn_cut s p q Hi Hpq).
      assert (Hh : IsSpace (fst (DecodeRuneInString q)) = true)
        by now rewrite Hdq.
      apply Decode_space_head in Hh.
      destruct q as [|q0 q]; [congruence | exact Hh]. }
    specialize (IH (i - size) ltac:(lia) ltac:(lia) Hclean').
    destruct (lastIndexFunc_loop IsSpace false fuel s (i - size)) as [j|].
    + destruct IH as (i' & Hi' & Hc' & Hns & ->).
      exists i'. repeat split; try lia; assumption.
    + apply spacesBack_snoc; [exact Hne | now rewrite E |].
      rewrite E, Hlen. cbn [snd]. rewrite firstn_firstn.
      now replace (Nat.min (i - size) i) with (i - size) by lia.
  - exists i. rewrite E. cbn [fst snd]. repeat split; try lia; assumption.
Qed.

(** The loops do not depend on the fuel once there is enough of it. *)
Lemma indexFunc_loop_fuel (f : rune -> bool) (truth : bool)
      (fuel : nat) (rest : bytes) (i : nat) :
  List.length rest < fuel ->
  indexFunc_loop f truth (S fuel) rest i = indexFunc_loop f truth fuel rest i.
Proof.
  revert rest i; induction fuel as [|fuel IH]; intros rest i Hlen; [lia|].
  change (indexFunc_loop f truth (S (S fuel)) rest i)
    with (match rest with
          | [] => None
          | _ :: _ =>
            let '(r, size) := DecodeRuneInString rest in
            if Bool.eqb (f r) truth then Some i
            else indexFunc_loop f truth (S fuel) (skipn size rest) (i + size)
          end).
  cbn [indexFunc_loop].
  destruct rest as [|c rest]; [reflexivity|].
  assert (Hne : c :: rest <> []) by discriminate.
  pose proof (Decode_size Hne) as Hsize.
  destruct (DecodeRuneInString (c :: rest)) as [r size]. cbn [snd] in Hsize.
  destruct (Bool.eqb (f r) truth); [reflexivity|].
  apply IH. rewrite length_skipn. cbn [List.length] in *. lia.
Qed.

Lemma lastIndexFunc_loop_fuel (f : rune -> bool) (truth : bool)
      (fuel : nat) (s : bytes) (i : nat) :
  i <= List.length s -> i < fuel ->
  lastIndexFunc_loop f truth (S fuel) s i
  = lastIndexFunc_loop f truth fuel s i.
Proof.
  revert i; induction fuel as [|fuel IH]; intros i Hi Hfuel; [lia|].
  change (lastIndexFunc_loop f truth (S (S fuel)) s i)
    with (if i =? 0 then None
          else
            let '(r, size) := DecodeLastRuneInString (firstn i s) in
            if Bool.eqb (f r) truth then Some (i - size)
            else lastIndexFunc_loop f truth (S fuel) s (i - size)).
  cbn [lastIndexFunc_loop].
  destruct (Nat.eqb_spec i 0) as [|Hpos]; [reflexivity|].
  assert (Hne : firstn i s <> []).
  { intros H. apply (f_equal (@List.length _)) in H.
    rewrite length_firstn in H. cbn in H. lia. }
  pose proof (DecodeLast_size Hne) as Hsize.
  rewrite length_firstn in Hsize.
  destruct (DecodeLastRuneInString (firstn i s)) as [r size].
  cbn [snd] in Hsize.
  destruct (Bool.eqb (f r) truth); [reflexivity|].
  apply IH; lia.
Qed.

(** *** [TrimLeftFunc] and [TrimRightFunc] with [unicode.IsSpace] *)

Lemma TrimLeftFunc_spec (s : bytes) :
  let u := TrimLeftFunc s IsSpace in
  (exists k, u = skipn k s)
  /\ (u = [] \/ IsSpace (fst (DecodeRuneInString u)) = false).
Proof.
  cbv zeta. unfold TrimLeftFunc, indexFunc.
  pose proof (@indexFunc_loop_spec (S (List.length s)) s 0 ltac:(lia)) as H.
  destruct (indexFunc_loop IsSpace false (S (List.length s)) s 0) as [j|].
  - destruct H as (k & -> & _ & Hns). cbn [Nat.add].
    split; [now exists k | now right].
  - split; [exists (List.length s); now rewrite skipn_all | now left].
Qed.

Lemma TrimLeftFunc_fixed (t : bytes) :
  IsSpace (fst (DecodeRuneInString t)) = false ->
  TrimLeftFunc t IsSpace = t.
Proof.
  intros Hns. unfold TrimLeftFunc, indexFunc. cbn [indexFunc_loop].
  destruct t as [|c t]; [reflexivity|].
  destruct (DecodeRuneInString (c :: t)) as [r size]. cbn [fst] in Hns.
  rewrite Hns. reflexivity.
Qed.

Lemma TrimRightFunc_cut (s : bytes) (i' : nat) :
  0 < i' <= List.length s -> clean (skipn i' s) ->
  let j := i' - snd (DecodeLastRuneInString (firstn i' s)) in
  (if (RuneSelf <=? bval (nth j s zero))%N then
     let '(_, wid) := DecodeRuneInString (skipn j s) in firstn (j + wid) s
   else firstn (j + 1) s)
  = firstn i' s.
Proof.
  intros Hi Hclean. cbv zeta.
  assert (Hne : firstn i' s <> []).
  { intros H. apply (f_equal (@List.length _)) in H.
    rewrite length_firstn in H. cbn in H. lia. }
  pose proof (@cut_width (firstn i' s) (skipn i' s) Hne Hclean) as H.
  cbv zeta in H.
  rewrite firstn_skipn, length_firstn in H.
  replace (Nat.min i' (List.length s)) with i' in H by lia.
  destruct (RuneSelf <=? _)%N.
  - destruct (DecodeRuneInString _) as [r wid]. cbn [snd] in H. now rewrite H.
  - now rewrite H.
Qed.

Lemma TrimRightFunc_spec (s : bytes) :
  let w := TrimRightFunc s IsSpace in
  (exists k, w = firstn k s)
  /\ (w = [] \/ IsSpace (fst (DecodeLastRuneInString w)) = false).
Proof.
  cbv zeta. unfold TrimRightFunc, lastIndexFunc.
  pose proof (@lastIndexFunc_loop_spec s (S (List.length s)) (List.length s)
                ltac:(lia) ltac:(lia)) as H.
  rewrite skipn_all in H. specialize (H I).
  destruct (lastIndexFunc_loop IsSpace false _ s _) as [j|].
  - destruct H as (i' & Hi' & Hc' & Hns & ->).
    pose proof (@TrimRightFunc_cut s i' ltac:(lia) Hc') as Hcut.
    match goal with
    | |- (exists k, ?X = _) /\ _ =>
      assert (HX : X = firstn i' s) by exact Hcut; rewrite HX
    end.
    split; [now exists i' | now right].
  - split; [now exists 0 | now left].
Qed.

Lemma TrimRightFunc_fixed (t : bytes) :
  IsSpace (fst (DecodeLastRuneInString t)) = false ->
  TrimRightFunc t IsSpace = t.
Proof.
  intros Hns. destruct t as [|c t]; [reflexivity|].
  unfold TrimRightFunc, lastIndexFunc.
  set (u := c :: t) in *.
  assert (Hlen : List.length u = S (List.length t)) by reflexivity.
  cbn [lastIndexFunc_loop]. rewrite Hlen at 2. cbn [Nat.eqb].
  rewrite <- Hlen, firstn_all.
  destruct (DecodeLastRuneInString u) as [r size] eqn:E. cbn [fst] in Hns.
  rewrite Hns. cbn [Bool.eqb].
  pose proof (@TrimRightFunc_cut u (List.length u) ltac:(lia)) as H.
  rewrite skipn_all, firstn_all, E in H. cbn [snd] in H.
  now apply H.
Qed.

Lemma firstn_snoc (u : bytes) (k : nat) :
  k < List.length u -> firstn (S k) u = firstn k u ++ [nth k u zero].
Proof.
  revert k; induction u as [|c u IH]; intros k Hk; [cbn in Hk; lia|].
  destruct k as [|k]; [reflexivity|].
  cbn [List.length] in Hk. rewrite firstn_cons, IH by lia. reflexivity.
Qed.

Lemma prefix_nonspace (u : bytes) (k : nat) :
  IsSpace (fst (DecodeRuneInString u)) = false ->
  firstn k u <> [] ->
  IsSpace (fst (DecodeRuneInString (firstn k u))) = false.
Proof.
  intros Hns Hne. apply Decode_prefix_nonspace with (rest := skipn k u).
  - exact Hne.
  - now rewrite firstn_skipn.
Qed.

(** Trimming on the right keeps the left end trimmed. *)
Lemma TrimRightFunc_trimmed (v : bytes) :
  v = [] \/ IsSpace (fst (DecodeRuneInString v)) = false ->
  trimmed (TrimRightFunc v IsSpace).
Proof.
  intros Hv. destruct (TrimRightFunc_spec v) as [[k Hk] Hw].
  destruct Hw as [Hw|Hw]; [now left|].
  destruct (TrimRightFunc v IsSpace) as [|c w] eqn:E; [now left|].
  right. split; [|exact Hw].
  destruct Hv as [->|Hv].
  - rewrite firstn_nil in Hk. discriminate.
  - rewrite Hk. apply prefix_nonspace; [exact Hv|]. rewrite <- Hk. discriminate.
Qed.

Lemma TrimFunc_trimmed (u : bytes) : trimmed (TrimFunc u IsSpace).
Proof.
  unfold TrimFunc. apply TrimRightFunc_trimmed.
  apply (TrimLeftFunc_spec u).
Qed.

Lemma TrimSpace_stop_trimmed (u : bytes) (stop : nat) :
  stop <= List.length u ->
  u = [] \/ IsSpace (fst (DecodeRuneInString u)) = false ->
  trimmed (TrimSpace_stop u stop).
Proof.
  intros Hstop Hu. induction stop as [|k IH]; [now left|].
  cbn [TrimSpace_stop].
  assert (Hpre : firstn (S k) u = [] \/
                 IsSpace (fst (DecodeRuneInString (firstn (S k) u))) = false).
  { destruct Hu as [->|Hu]; [now left|]. right.
    apply prefix_nonspace; [exact Hu|].
    rewrite firstn_snoc by lia. now destruct (firstn k u). }
  destruct (N.leb_spec RuneSelf (bval (nth k u zero))) as [Hc|Hc].
  - now apply TrimRightFunc_trimmed.
  - destruct (asciiSpace (bval (nth k u zero))) eqn:Ha; [apply IH; lia|].
    right. destruct Hpre as [Hpre|Hpre].
    + rewrite firstn_snoc in Hpre by lia. now destruct (firstn k u).
    + split; [exact Hpre|].
      rewrite firstn_snoc by lia. rewrite DecodeLast_ascii by exact Hc.
      cbn [fst]. now rewrite asciiSpace_IsSpace.
Qed.

(** [TrimSpace] returns a trimmed string. *)
Lemma TrimSpace_start_trimmed (u : bytes) : trimmed (TrimSpace_start u).
Proof.
  induction u as [|c u IH]; [now left|].
  cbn [TrimSpace_start].
  destruct (N.leb_spec RuneSelf (bval c)) as [Hc|Hc].
  - apply TrimFunc_trimmed.
  - destruct (asciiSpace (bval c)) eqn:Ha; [exact IH|].
    apply TrimSpace_stop_trimmed; [lia|]. right.
    rewrite Decode_ascii by exact Hc. cbn [fst].
    now rewrite asciiSpace_IsSpace.
Qed.

(** [TrimSpace] leaves a trimmed string as it is. *)
Lemma TrimSpace_start_fixed (t : bytes) :
  trimmed t -> TrimSpace_start t = t.
Proof.
  intros [->|[Hfirst Hlast]]; [reflexivity|].
  destruct t as [|c t]; [reflexivity|].
  cbn [TrimSpace_start].
  destruct (N.leb_spec RuneSelf (bval c)) as [Hc|Hc].
  - unfold TrimFunc. rewrite TrimLeftFunc_fixed by exact Hfirst.
    now apply TrimRightFunc_fixed.
  - rewrite Decode_ascii in Hfirst by exact Hc. cbn [fst] in Hfirst.
    rewrite asciiSpace_IsSpace in Hfirst by exact Hc. rewrite Hfirst.
    set (u := c :: t) in *.
    assert (Hlen : List.length u = S (List.length t)) by reflexivity.
    rewrite Hlen. cbn [TrimSpace_stop]. rewrite <- Hlen, firstn_all.
    assert (Hu : u = firstn (List.length t) u ++ [nth (List.length t) u zero]).
    { rewrite <- firstn_snoc by lia. now rewrite <- Hlen, firstn_all. }
    destruct (N.leb_spec RuneSelf (bval (nth (List.length t) u zero)))
      as [Hd|Hd].
    + now apply TrimRightFunc_fixed.
    + rewrite Hu in Hlast. rewrite DecodeLast_ascii in Hlast by exact Hd.
      cbn [fst] in Hlast.
      rewrite asciiSpace_IsSpace in Hlast by exact Hd. now rewrite Hlast.
Qed.

(** [TrimSpace] is idempotent. *)
Lemma TrimSpace_idempotent (s : string) :
  TrimSpace (TrimSpace s) = TrimSpace s.
Proof.
  unfold TrimSpace. rewrite bytefacts.bytes_of_string_of.
  now rewrite TrimSpace_start_fixed by apply TrimSpace_start_trimmed.
Qed.

(** A suffix without ASCII byte lies after the last ASCII byte. *)
Lemma suffix_after_ascii (p t p' q : bytes) (a : byte) :
  (p ++ a :: t = p' ++ q)%list ->
  (bval a < RuneSelf)%N ->
  (forall i, i < List.length q -> (RuneSelf <= bval (nth i q zero))%N) ->
  exists t', t = (t' ++ q)%list.
Proof.
  intros Heq Ha Hq.
  destruct (app_eq_app _ _ _ _ Heq) as [l [[-> Hl]|[-> Hl]]].
  - exfalso.
    assert (H : (RuneSelf <= bval (nth (List.length l) q zero))%N).
    { apply Hq. rewrite Hl, length_app. cbn. lia. }
    rewrite Hl in H.
    replace (List.length l) with (List.length l + 0) in H by lia.
    rewrite app_nth2_plus in H. cbn [nth] in H. lia.
  - destruct l as [|a' l].
    + exfalso. cbn [app] in Hl. subst q.
      specialize (Hq 0 ltac:(cbn; lia)). cbn [nth] in Hq. lia.
    + injection Hl as _ ->. now exists l.
Qed.

Lemma multibyte_high (q : bytes) :
  2 <= snd (DecodeRuneInString q) ->
  snd (DecodeRuneInString q) = List.length q ->
  forall i, i < List.length q -> (RuneSelf <= bval (nth i q zero))%N.
Proof.
  intros H2 Hlen i Hi.
  destruct (Decode_multibyte_shape q H2) as [Hh Hc].
  destruct i as [|i]; [unfold RuneSelf; lia|].
  assert (continuation (bval (nth (S i) q zero))) as [Hlo _]
    by (apply Hc; lia).
  exact Hlo.
Qed.

(** After an ASCII byte, the last rune of the string is the last rune of
    what follows the byte, as far as spaces are concerned. *)
Lemma DecodeLast_after_ascii (p t : bytes) (a : byte) :
  t <> [] -> (bval a < RuneSelf)%N ->
  IsSpace (fst (DecodeLastRuneInString t)) = false ->
  IsSpace (fst (DecodeLastRuneInString (p ++ a :: t))) = false.
Proof.
  intros Ht Ha Hns.
  destruct (IsSpace (fst (DecodeLastRuneInString (p ++ a :: t)))) eqn:Hsp;
    [exfalso | reflexivity].
  destruct (DecodeLast_space _ Hsp) as (p' & q & Hpq & Hq & Hlen & Hdec).
  assert (Hsq : IsSpace (fst (DecodeRuneInString q)) = true)
    by now rewrite Hdec.
  destruct (Decode_space q Hsq) as [(c & q' & -> & Hc & E)|H2].
  - (* an ASCII space: it is the last byte of [t] *)
    rewrite <- Hdec, E in Hlen. cbn [snd List.length] in Hlen.
    destruct q' as [|? ?]; [|cbn in Hlen; lia].
    rewrite (app_removelast_last zero Ht) in Hpq, Hns.
    change (a :: removelast t ++ [last t zero])
      with ((a :: removelast t) ++ [last t zero]) in Hpq.
    rewrite app_assoc in Hpq. apply app_inj_tail in Hpq as [_ Hc'].
    subst c. rewrite DecodeLast_ascii in Hns by exact Hc.
    rewrite E in Hsq. cbn [fst] in *.
    exact (eq_true_false_abs _ Hsq Hns).
  - assert (Hw : snd (DecodeRuneInString q) = List.length q)
      by now rewrite Hdec.
    destruct (@suffix_after_ascii p t p' q a Hpq Ha (@multibyte_high q H2 Hw))
      as [t' ->].
    rewrite (@DecodeLast_encoding t' q H2 Hw) in Hns.
    exact (eq_true_false_abs _ Hsq Hns).
Qed.


(** The join of trimmed non-empty names with [" and "] is trimmed. *)
Lemma Join_trimmed (names : list string) :
  names <> [] ->
  Forall (fun n => n <> ""%string /\ trimmed (bytes_of n)) names ->
  Join names " and " <> ""%string /\ trimmed (bytes_of (Join names " and ")).
Proof.
  induction names as [|e rest IH]; [congruence|]. intros _ Hall.
  inversion Hall as [|? ? [He Hte] Hrest]; subst.
  destruct rest as [|e' rest]; [now split|].
  change (Join (e :: e' :: rest) " and ")
    with (e ++ " and " ++ Join (e' :: rest) " and ")%string.
  destruct (IH ltac:(discriminate) Hrest) as [HJ HtJ].
  set (J := Join (e' :: rest) " and ") in *.
  destruct e as [|c e]; [congruence|]. split; [discriminate|].
  right.
  destruct Hte as [Hte|[Hfirst _]]; [discriminate|].
  destruct HtJ as [HtJ|[_ Hlast]];
    [apply bytefacts.bytes_of_nil in HtJ; congruence|].
  rewrite !bytefacts.bytes_of_append.
  split.
  - change (bytes_of " and ") with (" "%char :: bytes_of "and ").
    cbn [app]. rewrite Decode_app_ascii;
      [exact Hfirst | discriminate | reflexivity].
  - change (bytes_of " and ") with (bytes_of " and" ++ [" "%char])%list.
    rewrite <- (app_assoc (bytes_of " and")). cbn [app].
    rewrite app_assoc.
    apply DecodeLast_after_ascii; [|reflexivity | exact Hlast].
    intros H. apply bytefacts.bytes_of_nil in H. congruence.
Qed.

Lemma TrimSpace_trimmed (s : string) :
  trimmed (bytes_of s) -> TrimSpace s = s.
Proof.
  intros H. unfold TrimSpace. rewrite TrimSpace_start_fixed by exact H.
  apply bytefacts.string_of_bytes_of.
Qed.

Lemma trimmed_TrimSpace (s : string) : trimmed (bytes_of (TrimSpace s)).
Proof.
  unfold TrimSpace. rewrite bytefacts.bytes_of_string_of.
  apply TrimSpace_start_trimmed.
Qed.

End strings_facts.

(** ** The shape of the byline *)

Module byline_facts.

Import html colly scrape traversal.

(** The combined byline is the starting value or the trimmed text of a
    match. *)
Lemma combinedFrom_cases (a : string) (ms : list Node) :
  combinedFrom a ms = a
  \/ exists n, In n ms
               /\ combinedFrom a ms = strings.TrimSpace (goquery.Text n).
Proof.
  revert a; induction ms as [|m ms IH]; intros a; [now left|].
  rewrite traversal_facts.combinedFrom_cons.
  destruct (IH (if isEmpty (goquery.Text m) then a
                else strings.TrimSpace (goquery.Text m)))
    as [E|(n & Hn & E)].
  - rewrite E. destruct (isEmpty (goquery.Text m)); [now left | right].
    exists m. split; [now left | reflexivity].
  - right. exists n. split; [now right | exact E].
Qed.

(** Every name found is a trimmed text that is not empty. *)
Lemma anchorNames_trimmed (ms : list Node) :
  Forall (fun x => x <> "" /\ exists y, x = strings.TrimSpace y)
         (flat_map anchorNames ms).
Proof.
  apply Forall_forall. intros x Hx.
  apply in_flat_map in Hx as (n & _ & Hx).
  unfold anchorNames in Hx. apply filter_In in Hx as [Hx Hne].
  apply in_map_iff in Hx as (a & <- & _).
  split.
  - apply bytefacts.isEmpty_false. unfold nonEmpty in Hne.
    now apply negb_true_iff in Hne.
  - now eexists.
Qed.

End byline_facts.

(** ** The claims of the specification *)

Module claims.

Import html colly scrape traversal.

(** What [ScrapeArticle] returns after a visit that received [doc]. *)
Lemma ScrapeArticle_page (net : Network) (url : string) (doc : Node) :
  net url = Received (Some doc) ->
  ScrapeArticle net url
  = {| content := articleContent (traversed net url);
       byline := byline_of (traversed net url);
       err := None;
       log_entries := logged (traversed net url) |}.
Proof.
  intros Hnet. unfold ScrapeArticle, traversed, Visit. now rewrite Hnet.
Qed.

(** C1. When the visited page has at least one [<p>] element, the returned
    content is the concatenation, in document order, of the text of each
    [<p>] element followed by a newline, whatever [div.Page-authors]
    elements the page has. *)
Theorem C1_content_concatenates_paragraphs
        (net : Network) (url : string) (doc : Node) :
  net url = Received (Some doc) ->
  document.paragraphs doc <> [] ->
  content (ScrapeArticle net url)
  = strcat (map (fun p => goquery.Text p ++ newline)
                (document.paragraphs doc)).
Proof.
  intros Hnet _.
  rewrite (ScrapeArticle_page _ _ Hnet), (traversal_facts.traversed_page _ _ Hnet).
  reflexivity.
Qed.

Lemma C1_witness :
  samples.serving samples.by_jane "http://news/"
  = Received (Some samples.by_jane)
  /\ document.paragraphs samples.by_jane <> []
  /\ content (ScrapeArticle (samples.serving samples.by_jane) "http://news/")
     = strcat (map (fun p => goquery.Text p ++ newline)
                   (document.paragraphs samples.by_jane)).
Proof.
  assert (H1 : samples.serving samples.by_jane "http://news/"
               = Received (Some samples.by_jane)) by reflexivity.
  assert (H2 : document.paragraphs samples.by_jane <> [])
    by (vm_compute; discriminate).
  split; [exact H1 | split; [exact H2 |]].
  exact (C1_content_concatenates_paragraphs _ _ H1 H2).
Defined.

(** C2. When, after all matched [div.Page-authors] elements are processed,
    the combined byline is empty and names were found, the returned byline
    is the names joined with [" and "], the names being the trimmed
    non-empty anchor texts in the order they are met in the document. *)
Theorem C2_byline_joins_names (net : Network) (url : string) (doc : Node) :
  net url = Received (Some doc) ->
  author (traversed net url) = "" ->
  authors (traversed net url) <> [] ->
  byline (ScrapeArticle net url)
  = strings.Join (authors (traversed net url)) " and "
  /\ authors (traversed net url)
     = flat_map anchorNames (document.pageAuthors doc).
Proof.
  intros Hnet Hauthor Hnames.
  rewrite (ScrapeArticle_page _ _ Hnet). cbn [byline].
  unfold byline_of. rewrite Hauthor.
  split.
  - destruct (authors (traversed net url)); [contradiction | reflexivity].
  - now rewrite (traversal_facts.traversed_page _ _ Hnet).
Qed.

Lemma C2_witness :
  byline (ScrapeArticle (samples.serving samples.blank_second) "http://news/")
  = strings.Join
      (authors (traversed (samples.serving samples.blank_second)
                          "http://news/"))
      " and "
  /\ authors (traversed (samples.serving samples.blank_second) "http://news/")
     = flat_map anchorNames (document.pageAuthors samples.blank_second).
Proof.
  apply (@C2_byline_joins_names _ _ samples.blank_second).
  - reflexivity.
  - vm_compute. reflexivity.
  - vm_compute. discriminate.
Defined.

(** C3, evaluated.  On the page whose only [div.Page-authors] has exactly
    the two anchors "Jane Doe" and "John Smith" as children, the text of the
    element is the two names run together, so the combined byline is not
    empty and the names are not joined. *)
Theorem C3_two_anchors_run_together (url : string) :
  (exists n,
      document.pageAuthors samples.two_anchors = [n]
      /\ Children n = [samples.link "Jane Doe"; samples.link "John Smith"]
      /\ anchorNames n = ["Jane Doe"; "John Smith"])
  /\ byline (ScrapeArticle (samples.serving samples.two_anchors) url)
     = "Jane DoeJohn Smith".
Proof.
  split.
  - eexists. split; [vm_compute; reflexivity|].
    split; vm_compute; reflexivity.
  - rewrite (@ScrapeArticle_page _ _ samples.two_anchors eq_refl).
    cbn [byline].
    rewrite (@traversal_facts.traversed_page _ _ samples.two_anchors eq_refl).
    vm_compute. reflexivity.
Qed.

(** C4, refuted as stated: the page has a [div.Page-authors] whose trimmed
    text is "By Jane Doe", and the byline is that of a later match. *)
Lemma C4_counterexample :
  In (samples.byline_div [samples.text "By Jane Doe"])
     (document.pageAuthors samples.two_bylines)
  /\ strings.TrimSpace
       (goquery.Text (samples.byline_div [samples.text "By Jane Doe"]))
     = "By Jane Doe"
  /\ byline (ScrapeArticle (samples.serving samples.two_bylines)
                           "http://news/")
     <> "By Jane Doe".
Proof.
  split; [vm_compute; auto|].
  split; [vm_compute; reflexivity|].
  vm_compute. discriminate.
Qed.

(** C4, amended.  When the last [div.Page-authors] of the page whose text
    is not empty has the trimmed text "By Jane Doe", the returned byline is
    "By Jane Doe", whatever anchors that element and the others have. *)
Theorem C4_last_combined_text_is_byline
        (net : Network) (url : string) (doc : Node)
        (before after : list Node) (e : Node) :
  net url = Received (Some doc) ->
  document.pageAuthors doc = (before ++ e :: after)%list ->
  Forall (fun n => goquery.Text n = "") after ->
  strings.TrimSpace (goquery.Text e) = "By Jane Doe" ->
  byline (ScrapeArticle net url) = "By Jane Doe".
Proof.
  intros Hnet Hsplit Hafter Htext.
  rewrite (ScrapeArticle_page _ _ Hnet). cbn [byline].
  rewrite (traversal_facts.traversed_page _ _ Hnet).
  unfold byline_of. cbn [author authors].
  rewrite Hsplit.
  assert (Hc : combinedFrom "" (before ++ e :: after)%list = "By Jane Doe").
  { unfold combinedFrom. rewrite filter_app. cbn [filter].
    assert (He : nonEmpty (goquery.Text e) = true).
    { unfold nonEmpty. destruct (isEmpty (goquery.Text e)) eqn:E; [|reflexivity].
      apply bytefacts.isEmpty_true in E. rewrite E in Htext.
      vm_compute in Htext. discriminate. }
    rewrite He.
    assert (Ha : filter (fun n => nonEmpty (goquery.Text n)) after = []).
    { clear - Hafter. induction Hafter as [|n l Hn _ IH]; [reflexivity|].
      cbn [filter]. rewrite Hn. exact IH. }
    rewrite Ha, map_app. cbn [map]. rewrite last_last. exact Htext. }
  rewrite Hc. reflexivity.
Qed.

Lemma C4_witness :
  byline (ScrapeArticle (samples.serving samples.by_jane) "http://news/")
  = "By Jane Doe"
  /\ anchorNames
       (samples.byline_div
          [samples.text " By "; samples.link "Jane Doe"; samples.text " "])
     = ["Jane Doe"].
Proof.
  split.
  - apply (@C4_last_combined_text_is_byline
             _ _ samples.by_jane []
             []
             (samples.byline_div
                [samples.text " By "; samples.link "Jane Doe";
                 samples.text " "])).
    + reflexivity.
    + vm_compute. reflexivity.
    + constructor.
    + vm_compute. reflexivity.
  - vm_compute. reflexivity.
Defined.

(** C5. When the page has two or more [div.Page-authors] elements, every
    match is processed: the combined byline is the trimmed text of the last
    match whose text is not empty (the last match that updates it wins), and
    the list of names is the trimmed non-empty anchor texts of every match,
    in the order they are met. *)
Theorem C5_last_match_wins_names_accumulate
        (net : Network) (url : string) (doc : Node) :
  net url = Received (Some doc) ->
  2 <= List.length (document.pageAuthors doc) ->
  author (traversed net url)
  = last (map (fun n => strings.TrimSpace (goquery.Text n))
              (filter (fun n => negb (isEmpty (goquery.Text n)))
                      (document.pageAuthors doc)))
         ""
  /\ authors (traversed net url)
     = flat_map anchorNames (document.pageAuthors doc).
Proof.
  intros Hnet _.
  rewrite (traversal_facts.traversed_page _ _ Hnet).
  split; reflexivity.
Qed.

Lemma C5_witness :
  author (traversed (samples.serving samples.two_bylines) "http://news/")
  = "By John Smith"
  /\ authors (traversed (samples.serving samples.blank_second) "http://news/")
     = ["Jane Doe"; "John Smith"].
Proof.
  split.
  - refine (eq_trans
              (proj1 (@C5_last_match_wins_names_accumulate
                        (samples.serving samples.two_bylines) "http://news/"
                        samples.two_bylines eq_refl _)) _).
    + vm_compute. lia.
    + vm_compute. reflexivity.
  - refine (eq_trans
              (proj2 (@C5_last_match_wins_names_accumulate
                        (samples.serving samples.blank_second) "http://news/"
                        samples.blank_second eq_refl _)) _).
    + vm_compute. lia.
    + vm_compute. reflexivity.
Defined.



(** C7. When the request for the URL cannot be completed, [ScrapeArticle]
    returns the error alone, with empty content and byline, and the program
    writes nothing on standard output and exits with status 1. *)
Theorem C7_failed_fetch_returns_only_the_error (net : Network) (url : string) :
  (forall page, net url <> Received page) ->
  (exists e, err (ScrapeArticle net url) = Some e)
  /\ content (ScrapeArticle net url) = ""
  /\ byline (ScrapeArticle net url) = ""
  /\ main.stdout (main.main net url) = ""
  /\ main.exit_status (main.main net url) = 1.
Proof.
  intros Hfail.
  unfold main.main. destruct (isEmpty url).
  - unfold ScrapeArticle, Visit.
    destruct (net url) as [e|u e|page] eqn:E;
      [ | | exfalso; exact (Hfail page eq_refl)];
      cbn; repeat split; eexists; reflexivity.
  - unfold ScrapeArticle, Visit.
    destruct (net url) as [e|u e|page] eqn:E;
      [ | | exfalso; exact (Hfail page eq_refl)];
      cbn; repeat split; eexists; reflexivity.
Qed.

Lemma C7_witness :
  (exists e, err (ScrapeArticle samples.unreachable "http://nowhere/") = Some e)
  /\ content (ScrapeArticle samples.unreachable "http://nowhere/") = ""
  /\ byline (ScrapeArticle samples.unreachable "http://nowhere/") = ""
  /\ main.stdout (main.main samples.unreachable "http://nowhere/") = ""
  /\ main.exit_status (main.main samples.unreachable "http://nowhere/") = 1.
Proof.
  apply C7_failed_fetch_returns_only_the_error.
  intros page. vm_compute. discriminate.
Defined.

(** The run of the program after a visit that received a page. *)
Lemma main_page (net : Network) (url : string) (doc : Node) :
  net url = Received (Some doc) ->
  url <> "" ->
  main.main net url
  = let r := ScrapeArticle net url in
    {| main.stdout :=
         (if isEmpty (content r) then ""
          else fmt.Sprintln ["Scraped Article Content:"]
               ++ fmt.Sprintln [content r])
         ++ (if isEmpty (byline r)
             then fmt.Sprintln ["No author information found."]
             else fmt.Sprintln ["Byline:"; byline r]);
       main.stderr :=
         if isEmpty (content r)
         then [log.Output (fmt.Sprintln ["No article content found."])]
         else [];
       main.exit_status := 0 |}.
Proof.
  intros Hnet Hurl. unfold main.main.
  apply bytefacts.isEmpty_false in Hurl. rewrite Hurl.
  rewrite (ScrapeArticle_page _ _ Hnet).
  cbn [err content byline log_entries]. cbv zeta.
  assert (Hlog : logged (traversed net url) = [])
    by now rewrite (traversal_facts.traversed_page _ _ Hnet).
  rewrite Hlog.
  destruct (isEmpty (articleContent (traversed net url))); reflexivity.
Qed.



(** C9. When the visited page has no [div.Page-authors] element at all, the
    returned byline is empty and the program ends its standard output with
    the line "No author information found." *)
Theorem C9_no_byline_element (net : Network) (url : string) (doc : Node) :
  net url = Received (Some doc) ->
  url <> "" ->
  document.pageAuthors doc = [] ->
  byline (ScrapeArticle net url) = ""
  /\ main.stdout (main.main net url)
     = (if isEmpty (content (ScrapeArticle net url)) then ""
        else "Scraped Article Content:" ++ newline
             ++ content (ScrapeArticle net url) ++ newline)
       ++ "No author information found." ++ newline.
Proof.
  intros Hnet Hurl Hnone.
  assert (Hb : byline (ScrapeArticle net url) = "").
  { rewrite (ScrapeArticle_page _ _ Hnet). cbn [byline].
    rewrite (traversal_facts.traversed_page _ _ Hnet).
    unfold byline_of. cbn [author authors]. now rewrite Hnone. }
  split; [exact Hb|].
  rewrite (main_page _ Hnet Hurl). cbv zeta.
  cbn [main.stdout]. rewrite Hb.
  destruct (isEmpty (content _)); [reflexivity|].
  cbn. now rewrite !bytefacts.append_assoc.
Qed.

Lemma C9_witness :
  byline (ScrapeArticle (samples.serving samples.bare) "http://news/") = ""
  /\ main.stdout (main.main (samples.serving samples.bare) "http://news/")
     = "No author information found." ++ newline.
Proof.
  assert (Hurl : "http://news/" <> "") by discriminate.
  assert (Hnone : document.pageAuthors samples.bare = [])
    by (vm_compute; reflexivity).
  destruct (@C9_no_byline_element
              (samples.serving samples.bare) "http://news/"
              samples.bare eq_refl Hurl Hnone) as (H1 & H2).
  split; [exact H1|].
  rewrite H2. vm_compute. reflexivity.
Defined.

(** C10. The returned byline has no white space at either end: trimming
    it gives it back.  It is empty, or the trimmed text of a matched
    [div.Page-authors], or the join with [" and "] of names that are each
    trimmed and not empty. *)
Theorem C10_byline_is_trimmed (net : Network) (url : string) :
  let b := byline (ScrapeArticle net url) in
  strings.TrimSpace b = b
  /\ (b = ""
      \/ (exists doc n,
             net url = Received (Some doc)
             /\ In n (document.pageAuthors doc)
             /\ b = strings.TrimSpace (goquery.Text n))
      \/ (exists doc names,
             net url = Received (Some doc)
             /\ names = flat_map anchorNames (document.pageAuthors doc)
             /\ Forall (fun x => x <> "" /\ strings.TrimSpace x = x) names
             /\ b = strings.Join names " and ")).
Proof.
  cbv zeta.
  assert (Hempty : strings.TrimSpace "" = "") by reflexivity.
  destruct (net url) as [e|u e|[doc|]] eqn:Hnet;
    try (unfold ScrapeArticle, Visit; rewrite Hnet; cbn;
         split; [exact Hempty | now left]).
  rewrite (ScrapeArticle_page _ _ Hnet). cbn [byline].
  rewrite (traversal_facts.traversed_page _ _ Hnet).
  unfold byline_of. cbn [author authors].
  set (ms := document.pageAuthors doc).
  pose proof (byline_facts.anchorNames_trimmed ms) as Hnames.
  destruct (isEmpty (combinedFrom "" ms)) eqn:Hauthor; cbn [andb].
  - destruct (flat_map anchorNames ms) as [|x names] eqn:Hfound.
    + cbn. apply bytefacts.isEmpty_true in Hauthor. rewrite Hauthor.
      split; [exact Hempty | now left].
    + cbn [List.length Nat.ltb Nat.leb].
      assert (Hall : Forall (fun n => n <> "" /\
                                      whitespace.trimmed (bytes_of n))
                            (x :: names)).
      { eapply Forall_impl; [|exact Hnames].
        intros y [Hy [z ->]]. split; [exact Hy|].
        apply strings_facts.trimmed_TrimSpace. }
      destruct (@strings_facts.Join_trimmed (x :: names)
                  ltac:(discriminate) Hall) as [_ Ht].
      split; [now apply strings_facts.TrimSpace_trimmed|].
      right; right. exists doc, (x :: names).
      repeat split; try reflexivity.
      * now rewrite <- Hfound.
      * eapply Forall_impl; [|exact Hnames].
        intros y [Hy [z ->]]. split; [exact Hy|].
        apply strings_facts.TrimSpace_idempotent.
  - destruct (byline_facts.combinedFrom_cases "" ms) as [E|(n & Hn & E)].
    + rewrite E. split; [exact Hempty | now left].
    + rewrite E. split; [apply strings_facts.TrimSpace_idempotent|].
      right; left. now exists doc, n.
Qed.

End claims.

(** * Further properties *)

(** ** What [strings.TrimSpace] removes *)

Module removal_facts.

Import utf8 unicode strings whitespace utf8_facts strings_facts.
Local Open Scope list_scope.
Local Open Scope nat_scope.

(** The decoder reads no further than the width it returns. *)
Lemma multibyte_firstn (sz : nat) (accept : acceptRange) (s : bytes) :
  wellFormed sz accept ->
  2 <= snd (decodeMultibyte sz accept s) ->
  decodeMultibyte sz accept (firstn (snd (decodeMultibyte sz accept s)) s)
  = decodeMultibyte sz accept s.
Proof.
  intros ((? & ?) & ? & ?).
  destruct sz as [|[|[|[|[|?]]]]]; try lia;
    destruct s as [|c0 [|c1 [|c2 [|c3 s]]]];
    unfold decodeMultibyte;
    cbn -[N.lor N.land N.shiftl N.ltb N.leb bval Nat.ltb firstn];
    repeat (split_if;
            cbn -[N.lor N.land N.shiftl N.ltb N.leb bval Nat.ltb firstn]);
    intros; try lia;
    cbn -[N.lor N.land N.shiftl N.ltb N.leb bval];
    repeat match goal with
           | H : ?c = _ |- context [if ?c then _ else _] => rewrite H
           end;
    cbn -[N.lor N.land N.shiftl N.ltb N.leb bval];
    try reflexivity;
    cbn [firstn List.length Nat.ltb Nat.leb] in *; discriminate.
Qed.

Lemma Decode_firstn (s : bytes) :
  2 <= snd (DecodeRuneInString s) ->
  DecodeRuneInString (firstn (snd (DecodeRuneInString s)) s)
  = DecodeRuneInString s.
Proof.
  destruct s as [|c s]; [cbn; lia|].
  destruct (Decode_kind c) as [[_ E]|[[_ E]|(_ & sz & acc & W & E)]];
    rewrite !E; try (cbn; lia).
  intros H2.
  pose proof (multibyte_firstn (c :: s) W H2) as H.
  destruct (snd (decodeMultibyte sz acc (c :: s))) as [|n] eqn:En; [lia|].
  cbn [firstn] in *. now rewrite E.
Qed.

Lemma Decode_firstn_space (s : bytes) :
  IsSpace (fst (DecodeRuneInString s)) = true ->
  DecodeRuneInString (firstn (snd (DecodeRuneInString s)) s)
  = DecodeRuneInString s.
Proof.
  intros Hsp. destruct (Decode_space s Hsp) as [(c & t & -> & Hc & E)|H2].
  - rewrite E. cbn [snd firstn]. now apply Decode_ascii.
  - now apply Decode_firstn.
Qed.

(** A space rune in front of space runes. *)
Lemma space_rune_spaces (q tail : bytes) :
  q <> [] ->
  IsSpace (fst (DecodeRuneInString q)) = true ->
  snd (DecodeRuneInString q) = List.length q ->
  spaces tail -> spaces (q ++ tail).
Proof.
  intros Hq Hsp Hlen Htail.
  assert (E : DecodeRuneInString (q ++ tail) = DecodeRuneInString q).
  { destruct (Decode_space q Hsp) as [(c & t & -> & Hc & E)|H2].
    - rewrite E. cbn [app]. now apply Decode_ascii.
    - now apply Decode_app. }
  apply spaces_cons.
  - destruct q; [congruence | discriminate].
  - now rewrite E.
  - rewrite E, Hlen, skipn_app, skipn_all, Nat.sub_diag. exact Htail.
Qed.

Lemma spaces_app (a b : bytes) : spaces a -> spaces b -> spaces (a ++ b).
Proof.
  intros Ha Hb. induction Ha as [|s Hs Hsp _ IH]; [exact Hb|].
  pose proof (Decode_size Hs) as Hsize.
  rewrite <- (firstn_skipn (snd (DecodeRuneInString s)) s), <- app_assoc.
  apply space_rune_spaces.
  - intros H. apply (f_equal (@List.length _)) in H.
    rewrite length_firstn in H. cbn in H. lia.
  - now rewrite Decode_firstn_space.
  - rewrite Decode_firstn_space by exact Hsp. rewrite length_firstn. lia.
  - exact IH.
Qed.

Lemma spaces_clean (tail : bytes) : spaces tail -> clean tail.
Proof.
  intros [|s Hs Hsp _]; [exact I|].
  apply Decode_space_head in Hsp. destruct s; [congruence | exact Hsp].
Qed.

Lemma spaces_ascii (c : byte) (u : bytes) :
  (bval c < RuneSelf)%N -> asciiSpace (bval c) = true ->
  spaces u -> spaces (c :: u).
Proof.
  intros Hc Ha Hu. apply (@space_rune_spaces [c] u).
  - discriminate.
  - rewrite Decode_ascii by exact Hc. cbn [fst].
    now rewrite asciiSpace_IsSpace.
  - now rewrite Decode_ascii.
  - exact Hu.
Qed.

Lemma firstn_add (a b : nat) (l : bytes) :
  firstn (a + b) l = firstn a l ++ firstn b (skipn a l).
Proof.
  revert l; induction a as [|a IH]; intros l; [reflexivity|].
  destruct l as [|c l]; [now rewrite !firstn_nil|].
  cbn [Nat.add firstn skipn app]. now rewrite IH.
Qed.

(** What [indexFunc] skips is made of space runes. *)
Lemma indexFunc_loop_skips (fuel : nat) (rest : bytes) (i : nat) :
  List.length rest < fuel ->
  match indexFunc_loop IsSpace false fuel rest i with
  | None => True
  | Some j => exists k, j = i + k /\ spaces (firstn k rest)
  end.
Proof.
  revert rest i; induction fuel as [|fuel IH]; intros rest i Hfuel; [lia|].
  cbn [indexFunc_loop].
  destruct rest as [|c rest]; [exact I|].
  assert (Hne : c :: rest <> []) by discriminate.
  pose proof (Decode_size Hne) as Hsize.
  pose proof (@Decode_firstn_space (c :: rest)) as Hfirst.
  destruct (DecodeRuneInString (c :: rest)) as [r size] eqn:E.
  cbn [fst snd] in *.
  destruct (IsSpace r) eqn:Hr; cbn [Bool.eqb].
  - assert (Hlen : List.length (skipn size (c :: rest)) < fuel).
    { rewrite length_skipn. cbn [List.length] in *. lia. }
    specialize (IH (skipn size (c :: rest)) (i + size) Hlen).
    destruct (indexFunc_loop IsSpace false fuel _ _) as [j|]; [|exact I].
    destruct IH as (k & -> & Hk).
    exists (size + k). split; [lia|].
    rewrite firstn_add. apply space_rune_spaces.
    + intros H. apply (f_equal (@List.length _)) in H.
      rewrite length_firstn in H. cbn [List.length] in *. lia.
    + rewrite Hfirst by reflexivity. exact Hr.
    + rewrite Hfirst by reflexivity. cbn [snd]. rewrite length_firstn. lia.
    + exact Hk.
  - exists 0. split; [lia | constructor].
Qed.

Lemma TrimLeftFunc_removes (s : bytes) :
  exists pre, s = pre ++ TrimLeftFunc s IsSpace /\ spaces pre.
Proof.
  unfold TrimLeftFunc, indexFunc.
  pose proof (@indexFunc_loop_skips (S (List.length s)) s 0 ltac:(lia)) as H.
  pose proof (@indexFunc_loop_spec (S (List.length s)) s 0 ltac:(lia)) as H'.
  destruct (indexFunc_loop IsSpace false (S (List.length s)) s 0) as [j|].
  - destruct H as (k & -> & Hk). cbn [Nat.add].
    exists (firstn k s). split; [now rewrite firstn_skipn | exact Hk].
  - exists s. split; [now rewrite app_nil_r | exact H'].
Qed.

(** What [lastIndexFunc] passes over is made of space runes. *)
Lemma lastIndexFunc_loop_skips (s : bytes) (fuel i : nat) :
  i <= List.length s -> i < fuel -> spaces (skipn i s) ->
  match lastIndexFunc_loop IsSpace false fuel s i with
  | None => spaces s
  | Some j =>
    exists i',
      0 < i' <= i /\ spaces (skipn i' s)
      /\ j = i' - snd (DecodeLastRuneInString (firstn i' s))
  end.
Proof.
  revert i; induction fuel as [|fuel IH]; intros i Hi Hfuel Hsp; [lia|].
  cbn [lastIndexFunc_loop].
  destruct (Nat.eqb_spec i 0) as [->|Hpos]; [exact Hsp|].
  assert (Hne : firstn i s <> []).
  { intros H. apply (f_equal (@List.length _)) in H.
    rewrite length_firstn in H. cbn in H. lia. }
  assert (Hlen : List.length (firstn i s) = i)
    by (rewrite length_firstn; lia).
  pose proof (DecodeLast_size Hne) as Hsize. rewrite Hlen in Hsize.
  destruct (DecodeLastRuneInString (firstn i s)) as [r size] eqn:E.
  cbn [snd] in Hsize.
  destruct (IsSpace r) eqn:Hr; cbn [Bool.eqb].
  - assert (Hsp' : spaces (skipn (i - size) s)).
    { assert (Hl : IsSpace (fst (DecodeLastRuneInString (firstn i s))) = true)
        by now rewrite E.
      destruct (DecodeLast_space _ Hl) as (p & q & Hpq & Hq & Hlq & Hdq).
      rewrite E in Hlq, Hdq. cbn [snd] in Hlq. rewrite <- Hlq.
      rewrite (skipn_cut s p q Hi Hpq).
      apply space_rune_spaces; [exact Hq | now rewrite Hdq | | exact Hsp].
      now rewrite Hdq. }
    specialize (IH (i - size) ltac:(lia) ltac:(lia) Hsp').
    destruct (lastIndexFunc_loop IsSpace false fuel s (i - size)) as [j|];
      [|exact IH].
    destruct IH as (i' & Hi' & Hs' & ->).
    exists i'. repeat split; try lia; assumption.
  - exists i. rewrite E. cbn [snd]. repeat split; try lia; assumption.
Qed.

Lemma TrimRightFunc_removes (s : bytes) :
  exists post, s = TrimRightFunc s IsSpace ++ post /\ spaces post.
Proof.
  unfold TrimRightFunc, lastIndexFunc.
  pose proof (@lastIndexFunc_loop_skips s (S (List.length s)) (List.length s)
                ltac:(lia) ltac:(lia)) as H.
  rewrite skipn_all in H. specialize (H spaces_nil).
  destruct (lastIndexFunc_loop IsSpace false _ s _) as [j|].
  - destruct H as (i' & Hi' & Hs' & ->).
    pose proof (@TrimRightFunc_cut s i' ltac:(lia) (spaces_clean Hs'))
      as Hcut.
    match goal with
    | |- exists post, _ = ?X ++ _ /\ _ =>
      assert (HX : X = firstn i' s) by exact Hcut; rewrite HX
    end.
    exists (skipn i' s). split; [now rewrite firstn_skipn | exact Hs'].
  - exists s. split; [reflexivity | exact H].
Qed.

Lemma TrimFunc_removes (s : bytes) :
  exists pre post,
    s = pre ++ TrimFunc s IsSpace ++ post /\ spaces pre /\ spaces post.
Proof.
  unfold TrimFunc.
  destruct (TrimLeftFunc_removes s) as (pre & Hpre & Hsp).
  destruct (TrimRightFunc_removes (TrimLeftFunc s IsSpace))
    as (post & Hpost & Hsq).
  exists pre, post. repeat split; try assumption.
  now rewrite <- Hpost.
Qed.

Lemma skipn_nth_cons (u : bytes) (k : nat) :
  k < List.length u -> skipn k u = nth k u zero :: skipn (S k) u.
Proof.
  revert k; induction u as [|c u IH]; intros k Hk; [cbn in Hk; lia|].
  destruct k as [|k]; [reflexivity|].
  cbn [List.length] in Hk. cbn [skipn nth]. rewrite IH by lia. reflexivity.
Qed.

Lemma TrimSpace_stop_removes (u : bytes) (stop : nat) :
  stop <= List.length u -> spaces (skipn stop u) ->
  exists post, u = TrimSpace_stop u stop ++ post /\ spaces post.
Proof.
  induction stop as [|k IH]; intros Hstop Hsp.
  - exists u. split; [reflexivity | exact Hsp].
  - cbn [TrimSpace_stop].
    destruct (N.leb_spec RuneSelf (bval (nth k u zero))) as [Hc|Hc].
    + destruct (TrimRightFunc_removes (firstn (S k) u)) as (post & Hp & Hq).
      exists (post ++ skipn (S k) u). split.
      * rewrite app_assoc, <- Hp. now rewrite firstn_skipn.
      * now apply spaces_app.
    + destruct (asciiSpace (bval (nth k u zero))) eqn:Ha.
      * apply IH; [lia|].
        rewrite (@skipn_nth_cons u k) by lia.
        now apply spaces_ascii.
      * exists (skipn (S k) u). split; [now rewrite firstn_skipn | exact Hsp].
Qed.

Lemma TrimSpace_start_removes (u : bytes) :
  exists pre post,
    u = pre ++ TrimSpace_start u ++ post /\ spaces pre /\ spaces post.
Proof.
  induction u as [|c u IH].
  - exists [], []. repeat split; constructor.
  - cbn [TrimSpace_start].
    destruct (N.leb_spec RuneSelf (bval c)) as [Hc|Hc].
    + apply TrimFunc_removes.
    + destruct (asciiSpace (bval c)) eqn:Ha.
      * destruct IH as (pre & post & Hu & Hp & Hq).
        exists (c :: pre), post. repeat split; try assumption.
        -- cbn [app]. now rewrite <- Hu.
        -- now apply spaces_ascii.
      * destruct (@TrimSpace_stop_removes (c :: u) (List.length (c :: u))
                    ltac:(lia)) as (post & Hu & Hq).
        { rewrite skipn_all. constructor. }
        exists [], post. repeat split; try assumption. constructor.
Qed.

(** [TrimSpace] removes space runes only, at both ends. *)
Lemma TrimSpace_removes (s : string) :
  exists pre post,
    bytes_of s = pre ++ bytes_of (TrimSpace s) ++ post
    /\ spaces pre /\ spaces post.
Proof.
  unfold TrimSpace. rewrite bytefacts.bytes_of_string_of.
  apply TrimSpace_start_removes.
Qed.

Lemma spaces_app_inv (a b : bytes) :
  spaces a -> spaces (a ++ b) -> spaces b.
Proof.
  intros Ha. induction Ha as [|s Hs Hsp Hrest IH]; [trivial|].
  intros Hab. inversion Hab as [E|s' Hne Hsp' Hrest' E].
  - destruct s; [congruence | discriminate].
  - assert (Hd : DecodeRuneInString (s ++ b) = DecodeRuneInString s).
    { destruct (Decode_space s Hsp) as [(c & t & -> & Hc & Ed)|H2].
      - rewrite Ed. cbn [app]. now apply Decode_ascii.
      - now apply Decode_app. }
    rewrite Hd in Hrest'.
    pose proof (Decode_size Hs) as Hsize.
    rewrite skipn_app in Hrest'.
    replace (snd (DecodeRuneInString s) - List.length s) with 0 in Hrest'
      by lia.
    apply IH. exact Hrest'.
Qed.

(** A string that does not start with a space rune, followed by space
    runes, does not start with a space rune. *)
Lemma nonspace_before_spaces (t post : bytes) :
  t <> [] ->
  IsSpace (fst (DecodeRuneInString t)) = false ->
  spaces post ->
  IsSpace (fst (DecodeRuneInString (t ++ post))) = false.
Proof.
  intros Ht Hns Hpost.
  destruct (IsSpace (fst (DecodeRuneInString (t ++ post)))) eqn:Hsp;
    [exfalso | reflexivity].
  pose proof (Decode_firstn_space _ Hsp) as Hf.
  destruct (Decode_space _ Hsp) as [(c & u & E & Hc & Ed)|H2].
  - destruct t as [|c' t]; [congruence|]. injection E as -> _.
    rewrite Decode_ascii in Hns by exact Hc.
    rewrite Ed in Hsp. cbn [fst] in *. congruence.
  - remember (snd (DecodeRuneInString (t ++ post))) as n eqn:En.
    destruct (Nat.le_gt_cases n (List.length t)) as [Hle|Hgt].
    + (* the encoding lies within [t] *)
      rewrite firstn_app in Hf.
      replace (n - List.length t) with 0 in Hf by lia.
      cbn [firstn] in Hf. rewrite app_nil_r in Hf.
      assert (Hw : 2 <= snd (DecodeRuneInString (firstn n t)))
        by (rewrite Hf, <- En; exact H2).
      pose proof (Decode_app (firstn n t) (skipn n t) Hw) as Ha.
      rewrite firstn_skipn in Ha. rewrite Ha, Hf in Hns. congruence.
    + (* the encoding would continue into [post] *)
      assert (H2' : 2 <= snd (DecodeRuneInString (t ++ post)))
        by (rewrite <- En; exact H2).
      destruct (Decode_multibyte_shape _ H2') as [_ Hcont].
      rewrite <- En in Hcont.
      specialize (Hcont (List.length t)).
      assert (Hlt : 1 <= List.length t < n).
      { destruct t; [congruence | cbn [List.length] in *; lia]. }
      specialize (Hcont Hlt).
      replace (List.length t) with (List.length t + 0) in Hcont at 1 by lia.
      rewrite app_nth2_plus in Hcont.
      apply spaces_clean in Hpost.
      destruct post as [|d post].
      * pose proof (Decode_size (s:=t ++ [])) as Hs.
        rewrite app_nil_r in *. specialize (Hs Ht). lia.
      * exact (Hpost Hcont).
Qed.

(** [TrimSpace] returns the empty string exactly on strings made of space
    runes. *)
Lemma TrimSpace_empty_iff (s : string) :
  TrimSpace s = ""%string <-> spaces (bytes_of s).
Proof.
  destruct (TrimSpace_removes s) as (pre & post & Hs & Hpre & Hpost).
  split.
  - intros E. rewrite E in Hs. cbn [bytes_of list_ascii_of_string app] in Hs.
    rewrite Hs. now apply spaces_app.
  - intros Hsp. rewrite Hs in Hsp.
    apply (@spaces_app_inv pre _ Hpre) in Hsp.
    pose proof (trimmed_TrimSpace s) as Ht.
    destruct (bytes_of (TrimSpace s)) as [|c t] eqn:E.
    + now apply bytefacts.bytes_of_nil.
    + exfalso. destruct Ht as [Ht|[Hfirst _]]; [discriminate|].
      pose proof (@nonspace_before_spaces (c :: t) post ltac:(discriminate)
                    Hfirst Hpost) as Hns.
      inversion Hsp as [|s' Hne Hsp' _ E'].
      exact (eq_true_false_abs _ Hsp' Hns).
Qed.

End removal_facts.

(** ** Subtrees in document order *)

Module subtree_facts.

Import html document colly scrape traversal.
Local Open Scope list_scope.

(** The subtree of a node of a tree is a segment of the tree's document
    order. *)
Lemma preorder_split (c n : Node) :
  In n (preorder c) ->
  exists l1 l3, preorder c = l1 ++ preorder n ++ l3.
Proof.
  induction c as [t d a cs IH] using document_order.Node_induction.
  intros [<-|Hin].
  - exists [], []. now rewrite app_nil_r.
  - cbn [Children] in Hin. apply in_flat_map in Hin as (c' & Hc' & Hn).
    rewrite Forall_forall in IH.
    destruct (IH c' Hc' Hn) as (l1 & l3 & E).
    destruct (in_split _ _ Hc') as (cs1 & cs2 & ->).
    cbn [preorder Children]. rewrite flat_map_app. cbn [flat_map].
    rewrite E.
    exists (mkNode t d a (cs1 ++ c' :: cs2) :: flat_map preorder cs1 ++ l1),
           (l3 ++ flat_map preorder cs2).
    cbn [app]. now rewrite <- !app_assoc.
Qed.

Lemma searched_split (doc n : Node) :
  In n (searched doc) ->
  exists l1 l3, searched doc = l1 ++ preorder n ++ l3.
Proof.
  unfold searched. intros Hin.
  apply in_flat_map in Hin as (c & Hc & Hn).
  destruct (in_split _ _ Hc) as (cs1 & cs2 & ->).
  rewrite flat_map_app. cbn [flat_map].
  destruct (Type_ c); try contradiction.
  destruct (preorder_split c n Hn) as (l1 & l3 & ->).
  match goal with
  | |- exists _ _, ?A ++ _ ++ ?B = _ => exists (A ++ l1), (l3 ++ B)
  end.
  now rewrite <- !app_assoc.
Qed.

Lemma preorder_cons (n : Node) :
  preorder n = n :: flat_map preorder (Children n).
Proof. now destruct n. Qed.

Lemma searched_below (n m : Node) :
  In m (searched n) -> In m (flat_map preorder (Children n)).
Proof.
  unfold searched. intros Hin.
  apply in_flat_map in Hin as (c & Hc & Hm).
  apply in_flat_map. exists c. split; [exact Hc|].
  now destruct (Type_ c).
Qed.

Lemma preorder_incl (c n : Node) :
  In n (preorder c) -> incl (preorder n) (preorder c).
Proof.
  intros Hin. destruct (preorder_split c n Hin) as (l1 & l3 & ->).
  intros x Hx. apply in_or_app. right. apply in_or_app. now left.
Qed.

(** What is searched inside a searched node is searched. *)
Lemma searched_trans (n m a : Node) :
  In m (searched n) -> In a (searched m) -> In a (searched n).
Proof.
  unfold searched at 1 3. intros Hm Ha.
  apply in_flat_map in Hm as (c & Hc & Hm).
  apply in_flat_map. exists c. split; [exact Hc|].
  destruct (Type_ c); try contradiction.
  apply (preorder_incl c m Hm).
  apply searched_below in Ha.
  destruct m as [tm dm am csm]. cbn [preorder Children] in *.
  right. exact Ha.
Qed.

Lemma anchorNames_nested (n m : Node) :
  In m (searched n) -> incl (anchorNames m) (anchorNames n).
Proof.
  intros Hm x Hx. unfold anchorNames in *.
  apply filter_In in Hx as [Hx Hne]. apply filter_In. split; [|exact Hne].
  apply in_map_iff in Hx as (a & <- & Ha). apply in_map_iff.
  exists a. split; [reflexivity|].
  unfold anchors in *. apply filter_In in Ha as [Ha Hsel].
  apply filter_In. split; [|exact Hsel].
  now apply (searched_trans n m).
Qed.

Lemma count_occ_flat_map_ge (f : Node -> list string) (l : list Node)
      (n : Node) (x : string) :
  In n l ->
  count_occ string_dec (f n) x <= count_occ string_dec (flat_map f l) x.
Proof.
  intros Hin. destruct (in_split _ _ Hin) as (l1 & l2 & ->).
  rewrite flat_map_app. cbn [flat_map]. rewrite !count_occ_app. lia.
Qed.

End subtree_facts.

(** ** Matching a class *)

Module class_facts.

Import html cascadia fields.

Lemma append_snoc (tok v : string) (c : ascii) :
  (tok ++ String c "") ++ v = tok ++ String c v.
Proof. now rewrite bytefacts.append_assoc. Qed.

Lemma closedRight_cons (c : ascii) (s : string) :
  s <> "" -> closedRight (String c s) = closedRight s.
Proof. destruct s; [congruence | reflexivity]. Qed.

(** A field that completes the token read so far is found. *)
Lemma includesFrom_field (tok v post val : string) :
  noSep v = true -> tok ++ v = val -> val <> "" -> closedLeft post = true ->
  includesFrom tok (v ++ post) val = true.
Proof.
  revert tok; induction v as [|x v IH]; intros tok Hv Hval Hne Hpost.
  - rewrite bytefacts.append_nil_r in Hval. subst tok. cbn [append].
    destruct post as [|c q]; cbn [includesFrom].
    + destruct val; [congruence | apply String.eqb_refl].
    + cbn [closedLeft] in Hpost. rewrite Hpost, String.eqb_refl. reflexivity.
  - cbn [noSep] in Hv. apply andb_true_iff in Hv as [Hx Hv].
    apply negb_true_iff in Hx.
    cbn [append includesFrom]. rewrite Hx.
    apply IH; try assumption. now rewrite append_snoc.
Qed.

(** What precedes a separator does not hide a later field. *)
Lemma includesFrom_later (tok pre rest val : string) :
  pre <> "" -> closedRight pre = true ->
  includesFrom "" rest val = true ->
  includesFrom tok (pre ++ rest) val = true.
Proof.
  revert tok; induction pre as [|x pre IH]; intros tok Hne Hpre Hrest;
    [congruence|].
  cbn [append includesFrom].
  destruct pre as [|y pre].
  - cbn [closedRight] in Hpre. rewrite Hpre. cbn [append].
    rewrite Hrest. apply orb_true_r.
  - rewrite closedRight_cons in Hpre by discriminate.
    destruct (isClassSep x).
    + rewrite IH by (try discriminate; assumption). apply orb_true_r.
    + apply IH; (try discriminate; assumption).
Qed.

Lemma includesFrom_inv (tok s val : string) :
  val <> "" ->
  includesFrom tok s val = true ->
  (exists v post,
      s = v ++ post /\ tok ++ v = val /\ noSep v = true
      /\ closedLeft post = true)
  \/ (exists pre post,
         s = pre ++ val ++ post /\ pre <> "" /\ closedRight pre = true
         /\ noSep val = true /\ closedLeft post = true).
Proof.
  intros Hne. revert tok; induction s as [|c s IH]; intros tok H.
  - cbn [includesFrom] in H. left. exists "", "".
    destruct tok; [discriminate|]. apply String.eqb_eq in H.
    repeat split. now rewrite bytefacts.append_nil_r.
  - cbn [includesFrom] in H. destruct (isClassSep c) eqn:Hc.
    + apply orb_true_iff in H as [H|H].
      * apply String.eqb_eq in H. left. exists "", (String c s).
        repeat split; [now rewrite bytefacts.append_nil_r | exact Hc].
      * right. destruct (IH "" H) as [(v & post & -> & Hv & Hn & Hp)
                                     |(pre & post & -> & Hpn & Hpre & Hn & Hp)].
        -- cbn [append] in Hv. subst v. exists (String c ""), post.
           repeat split; try assumption; discriminate.
        -- exists (String c pre), post.
           repeat split; try assumption; try discriminate.
           now rewrite closedRight_cons.
    + destruct (IH _ H) as [(v & post & -> & Hv & Hn & Hp)
                           |(pre & post & -> & Hpn & Hpre & Hn & Hp)].
      * left. exists (String c v), post. repeat split; try assumption.
        -- now rewrite <- append_snoc.
        -- cbn [noSep]. now rewrite Hc, Hn.
      * right. exists (String c pre), post.
        repeat split; try assumption; try discriminate.
        now rewrite closedRight_cons.
Qed.

(** The attribute value includes [val] exactly when [val] is one of its
    fields: a part without separator, with the start of the value or a
    separator before it and the end of the value or a separator after it. *)
Lemma includes_iff_field (s val : string) :
  val <> "" ->
  includes s val = true
  <-> exists pre post,
        s = pre ++ val ++ post
        /\ closedRight pre = true /\ noSep val = true
        /\ closedLeft post = true.
Proof.
  intros Hne. unfold includes. split.
  - intros H.
    destruct (includesFrom_inv "" s Hne H)
      as [(v & post & -> & Hv & Hn & Hp)
         |(pre & post & -> & Hpn & Hpre & Hn & Hp)].
    + cbn [append] in Hv. subst v. exists "", post. now repeat split.
    + exists pre, post. now repeat split.
  - intros (pre & post & -> & Hpre & Hn & Hp).
    destruct pre as [|x pre].
    + cbn [append]. now apply includesFrom_field.
    + apply includesFrom_later; [discriminate | exact Hpre |].
      now apply includesFrom_field.
Qed.

End class_facts.

(** ** The program beyond the claims *)

Module further.

Import html colly scrape traversal observations document subtree_facts.


Lemma strcat_app (a b : list string) :
  strcat (a ++ b) = strcat a ++ strcat b.
Proof.
  induction a as [|x a IH]; [reflexivity|].
  cbn [app strcat fold_right]. fold (strcat (a ++ b)). fold (strcat a).
  now rewrite IH, bytefacts.append_assoc.
Qed.

Lemma strcat_flat_map {A} (f : A -> list string) (l : list A) :
  strcat (flat_map f l) = strcat (map (fun x => strcat (f x)) l).
Proof.
  induction l as [|x l IH]; [reflexivity|].
  cbn [flat_map map]. rewrite strcat_app, IH. reflexivity.
Qed.

(** The text of a node is the data of the text nodes of its subtree, in
    document order. *)
Lemma Text_textNodes (n : Node) :
  goquery.Text n = strcat (map Data (textNodes n)).
Proof.
  unfold textNodes.
  induction n as [t d a cs IH] using document_order.Node_induction.
  cbn [goquery.Text document.preorder filter Type_ Data Children].
  rewrite document_order.filter_flat_map.
  assert (Hcs : strcat (map goquery.Text cs)
                = strcat (map Data
                     (flat_map (fun x => filter
                                  (fun m => NodeType_eqb (Type_ m) TextNode)
                                  (document.preorder x)) cs))).
  { induction IH as [|c cs Hc _ IHcs]; [reflexivity|].
    cbn [map flat_map]. rewrite map_app, strcat_app, <- IHcs, <- Hc.
    reflexivity. }
  rewrite Hcs. now destruct t.
Qed.

(** X4. After a visit that received a page, the content is, for each
    [<p>] match in document order, the data of the text nodes of its
    subtree in document order, then a newline: tags, attributes and comments
    add nothing. *)
Theorem content_is_text_of_paragraphs
        (net : Network) (url : string) (doc : Node) :
  net url = Received (Some doc) ->
  content (ScrapeArticle net url)
  = strcat (map (fun p => strcat (map Data (textNodes p)) ++ newline)
                (document.paragraphs doc)).
Proof.
  intros Hnet.
  rewrite (claims.ScrapeArticle_page _ _ Hnet). cbn [content].
  rewrite (traversal_facts.traversed_page _ _ Hnet). cbn [articleContent].
  f_equal. apply map_ext. intros p. now rewrite Text_textNodes.
Qed.

Lemma content_is_text_of_paragraphs_witness :
  content (ScrapeArticle (samples.serving samples.by_jane) "http://news/")
  = "First." ++ newline ++ "Second." ++ newline.
Proof.
  rewrite (@content_is_text_of_paragraphs
             (samples.serving samples.by_jane) "http://news/"
             samples.by_jane eq_refl).
  vm_compute. reflexivity.
Defined.

(** The loop of one pass, in closed form. *)
Lemma onePass_loop (l : list Node) (v : Vars) :
  fold_left visitNode l v
  = {| articleContent :=
         articleContent v
         ++ strcat (map (fun p => goquery.Text p ++ newline)
                        (filter (compile sel_p) l));
       author :=
         combinedFrom (author v) (filter (compile sel_div_Page_authors) l);
       authors :=
         (authors v
          ++ flat_map anchorNames (filter (compile sel_div_Page_authors) l))%list;
       logged := logged v |}.
Proof.
  revert v; induction l as [|n l IH]; intros v.
  - destruct v; cbn. now rewrite bytefacts.append_nil_r, app_nil_r.
  - cbn [fold_left filter]. rewrite IH. unfold visitNode.
    destruct (compile sel_div_Page_authors n) eqn:Ed;
      destruct (compile sel_p n) eqn:Ep;
      try rewrite traversal_facts.onPageAuthors_spec;
      cbn [onParagraph articleContent author authors logged map strcat
           fold_right flat_map Text NewHTMLElementFromSelectionNode];
      try rewrite traversal_facts.combinedFrom_cons;
      try rewrite <- app_assoc;
      try rewrite bytefacts.append_assoc;
      reflexivity.
Qed.

(** X5. The variables after the visit are those of a single pass over the
    page in document order that hands each node to the callbacks whose
    selector accepts it: that colly runs every [div.Page-authors] match
    before every [p] match changes nothing. *)
Theorem traversal_is_one_pass (net : Network) (url : string) (doc : Node) :
  net url = Received (Some doc) ->
  traversed net url = onePass doc initial.
Proof.
  intros Hnet. rewrite (traversal_facts.traversed_page _ _ Hnet).
  unfold onePass. rewrite onePass_loop. reflexivity.
Qed.

Lemma traversal_is_one_pass_witness :
  traversed (samples.serving samples.by_jane) "http://news/"
  = onePass samples.by_jane initial.
Proof.
  apply (@traversal_is_one_pass _ _ samples.by_jane). reflexivity.
Defined.

Lemma append_empty (s t : string) : s ++ t = "" -> s = "" /\ t = "".
Proof. destruct s; [now split | discriminate]. Qed.

(** The content is empty exactly when no [<p>] element is matched. *)
Lemma content_empty_paragraphs (net : Network) (url : string) (doc : Node) :
  net url = Received (Some doc) ->
  content (ScrapeArticle net url) = "" <-> document.paragraphs doc = [].
Proof.
  intros Hnet.
  rewrite (claims.ScrapeArticle_page _ _ Hnet). cbn [content].
  rewrite (traversal_facts.traversed_page _ _ Hnet). cbn [articleContent].
  destruct (document.paragraphs doc) as [|p ps]; [now split|].
  split; [|discriminate]. cbn [map strcat fold_right].
  intros H. apply append_empty in H as [H _].
  apply append_empty in H as [_ H]. discriminate.
Qed.






(** X6. When the last [div.Page-authors] match with a non-empty text has a
    trimmed text that is not empty, that trimmed text is the byline: the
    names found in anchors are not used, however many there are. *)
Theorem byline_is_last_trimmed_text
        (net : Network) (url : string) (doc : Node)
        (before after : list Node) (e : Node) :
  net url = Received (Some doc) ->
  document.pageAuthors doc = (before ++ e :: after)%list ->
  Forall (fun n => goquery.Text n = "") after ->
  strings.TrimSpace (goquery.Text e) <> "" ->
  byline (ScrapeArticle net url) = strings.TrimSpace (goquery.Text e).
Proof.
  intros Hnet Hsplit Hafter Htext.
  rewrite (claims.ScrapeArticle_page _ _ Hnet). cbn [byline].
  rewrite (traversal_facts.traversed_page _ _ Hnet).
  unfold byline_of. cbn [author authors]. rewrite Hsplit.
  assert (Hc : combinedFrom "" (before ++ e :: after)%list
               = strings.TrimSpace (goquery.Text e)).
  { unfold combinedFrom. rewrite filter_app. cbn [filter].
    assert (He : nonEmpty (goquery.Text e) = true).
    { unfold nonEmpty.
      destruct (isEmpty (goquery.Text e)) eqn:E; [|reflexivity].
      apply bytefacts.isEmpty_true in E. rewrite E in Htext.
      now contradiction Htext. }
    rewrite He.
    assert (Ha : filter (fun n => nonEmpty (goquery.Text n)) after = []).
    { clear - Hafter. induction Hafter as [|n l Hn _ IH]; [reflexivity|].
      cbn [filter]. rewrite Hn. exact IH. }
    rewrite Ha, map_app. cbn [map]. now rewrite last_last. }
  rewrite Hc. apply bytefacts.isEmpty_false in Htext. now rewrite Htext.
Qed.

Lemma byline_is_last_trimmed_text_witness :
  byline (ScrapeArticle (samples.serving samples.two_bylines) "http://news/")
  = "By John Smith".
Proof.
  rewrite (@byline_is_last_trimmed_text
             (samples.serving samples.two_bylines) "http://news/"
             samples.two_bylines
             [samples.byline_div [samples.text "By Jane Doe"]] []
             (samples.byline_div [samples.text "By John Smith"])).
  - vm_compute. reflexivity.
  - reflexivity.
  - vm_compute. reflexivity.
  - constructor.
  - vm_compute. discriminate.
Defined.

(** X9. Both [OnHTML] callbacks keep the variables tidy: the combined
    byline stays free of white space at its ends and every name stays
    trimmed and not empty. *)
Theorem callbacks_keep_tidy (n : Node) (v : Vars) :
  tidy v ->
  tidy (onPageAuthors (NewHTMLElementFromSelectionNode n) v)
  /\ tidy (onParagraph (NewHTMLElementFromSelectionNode n) v).
Proof.
  intros [Ha Hn]. split; [|split; assumption].
  rewrite traversal_facts.onPageAuthors_spec. split; cbn [author authors].
  - destruct (isEmpty (goquery.Text n)); [exact Ha|].
    apply strings_facts.TrimSpace_idempotent.
  - apply Forall_app. split; [exact Hn|].
    pose proof (byline_facts.anchorNames_trimmed [n]) as H.
    cbn [flat_map] in H. rewrite app_nil_r in H.
    eapply Forall_impl; [|exact H].
    intros x [Hx [y ->]]. split; [exact Hx|].
    apply strings_facts.TrimSpace_idempotent.
Qed.

Lemma callbacks_keep_tidy_witness :
  tidy (onPageAuthors
          (NewHTMLElementFromSelectionNode
             (samples.byline_div [samples.text " By "; samples.link " Jane "]))
          initial).
Proof.
  apply callbacks_keep_tidy. split; [reflexivity | constructor].
Defined.

(** X10. When a [div.Page-authors] match lies inside another one, every
    name found in the inner match is in the list of names at least twice:
    once for each of the two matches. *)
Theorem nested_byline_names_twice
        (net : Network) (url : string) (doc n m : Node) (x : string) :
  net url = Received (Some doc) ->
  In n (pageAuthors doc) ->
  In m (pageAuthors n) ->
  In x (anchorNames m) ->
  2 <= count_occ string_dec (authors (traversed net url)) x.
Proof.
  intros Hnet Hn Hm Hx.
  rewrite (traversal_facts.traversed_page _ _ Hnet). cbn [authors].
  unfold pageAuthors in *.
  apply filter_In in Hn as [Hn Hseln]. apply filter_In in Hm as [Hm Hselm].
  destruct (searched_split doc n Hn) as (l1 & l3 & ->).
  rewrite (preorder_cons n).
  destruct (in_split _ _ (searched_below n m Hm)) as (a & b & E).
  rewrite E.
  rewrite !filter_app. cbn [filter]. rewrite Hseln.
  rewrite !filter_app. cbn [filter]. rewrite Hselm.
  rewrite !flat_map_app. cbn [flat_map]. rewrite !flat_map_app.
  cbn [flat_map]. rewrite !count_occ_app.
  assert (H1 : 1 <= count_occ string_dec (anchorNames m) x)
    by now apply count_occ_In.
  assert (H2 : 1 <= count_occ string_dec (anchorNames n) x).
  { apply count_occ_In. now apply (anchorNames_nested n m Hm). }
  lia.
Qed.

Lemma nested_byline_names_twice_witness :
  2 <= count_occ string_dec
         (authors (traversed (samples.serving more_samples.nested_bylines)
                             "http://news/"))
         "John Smith".
Proof.
  apply (@nested_byline_names_twice
           (samples.serving more_samples.nested_bylines) "http://news/"
           more_samples.nested_bylines
           (samples.byline_div
              [samples.link "Jane Doe";
               samples.byline_div [samples.link "John Smith"]])
           (samples.byline_div [samples.link "John Smith"])).
  - reflexivity.
  - vm_compute. auto.
  - vm_compute. auto.
  - vm_compute. auto.
Defined.

(** X7. The combined byline that a match with a non-empty text sets is
    the text of the element without a run of space runes at each end, and
    it is empty exactly when the whole text is made of space runes. *)
Theorem combined_byline_is_text_without_spaces (n : Node) (v : Vars) :
  goquery.Text n <> "" ->
  let a := author (onPageAuthors (NewHTMLElementFromSelectionNode n) v) in
  (exists pre post,
      bytes_of (goquery.Text n) = (pre ++ bytes_of a ++ post)%list
      /\ whitespace.spaces pre /\ whitespace.spaces post)
  /\ (a = "" <-> whitespace.spaces (bytes_of (goquery.Text n))).
Proof.
  intros Htext. cbv zeta.
  rewrite traversal_facts.onPageAuthors_spec. cbn [author].
  apply bytefacts.isEmpty_false in Htext. rewrite Htext.
  split.
  - apply removal_facts.TrimSpace_removes.
  - apply removal_facts.TrimSpace_empty_iff.
Qed.

Lemma combined_byline_is_text_without_spaces_witness :
  author (onPageAuthors
            (NewHTMLElementFromSelectionNode
               (samples.byline_div [samples.text " "]))
            initial)
  = ""
  <-> whitespace.spaces (bytes_of " ").
Proof.
  apply (@combined_byline_is_text_without_spaces
           (samples.byline_div [samples.text " "]) initial).
  vm_compute. discriminate.
Defined.

(** X8. Every name found is not empty and is the text of an anchor inside
    a [div.Page-authors] match, without a run of space runes at each
    end. *)
Theorem names_are_anchor_texts_without_spaces
        (net : Network) (url : string) (doc : Node) (x : string) :
  net url = Received (Some doc) ->
  In x (authors (traversed net url)) ->
  x <> ""
  /\ exists n a pre post,
       In n (pageAuthors doc) /\ In a (anchors n)
       /\ bytes_of (goquery.Text a) = (pre ++ bytes_of x ++ post)%list
       /\ whitespace.spaces pre /\ whitespace.spaces post.
Proof.
  intros Hnet Hx.
  rewrite (traversal_facts.traversed_page _ _ Hnet) in Hx. cbn [authors] in Hx.
  apply in_flat_map in Hx as (n & Hn & Hx).
  unfold anchorNames in Hx. apply filter_In in Hx as [Hx Hne].
  apply in_map_iff in Hx as (a & <- & Ha).
  split.
  - apply bytefacts.isEmpty_false. unfold nonEmpty in Hne.
    now apply negb_true_iff in Hne.
  - destruct (removal_facts.TrimSpace_removes (goquery.Text a))
      as (pre & post & E & Hp & Hq).
    now exists n, a, pre, post.
Qed.

Lemma names_are_anchor_texts_without_spaces_witness :
  "Jane Doe" <> ""
  /\ exists n a pre post,
       In n (pageAuthors samples.by_jane) /\ In a (anchors n)
       /\ bytes_of (goquery.Text a) = (pre ++ bytes_of "Jane Doe" ++ post)%list
       /\ whitespace.spaces pre /\ whitespace.spaces post.
Proof.
  apply (@names_are_anchor_texts_without_spaces
           (samples.serving samples.by_jane) "http://news/").
  - reflexivity.
  - vm_compute. auto.
Defined.

(** X11. The selector [div.Page-authors] accepts exactly the [div]
    elements with an attribute [class] of which [Page-authors] is one of the
    fields separated by white space: other classes may stand beside it. *)
Theorem byline_selector_accepts_class_field (n : Node) :
  compile sel_div_Page_authors n = true
  <-> Type_ n = ElementNode
      /\ Data n = "div"
      /\ exists a pre post,
           In a (Attr n) /\ Key a = "class"
           /\ Val a = pre ++ "Page-authors" ++ post
           /\ fields.closedRight pre = true
           /\ fields.closedLeft post = true.
Proof.
  assert (Hne : "Page-authors" <> "") by discriminate.
  cbn [compile]. unfold cascadia.compoundSelector, cascadia.tagSelector,
    cascadia.classSelector, cascadia.matchAttribute.
  cbn [forallb]. rewrite andb_true_r, !andb_true_iff, existsb_exists.
  rewrite String.eqb_eq.
  assert (Ht : NodeType_eqb (Type_ n) ElementNode = true
               <-> Type_ n = ElementNode)
    by (destruct (Type_ n); split; (reflexivity || discriminate)).
  rewrite Ht. split.
  - intros [[H1 H2] [_ (a & Ha & H)]].
    apply andb_true_iff in H as [Hk Hv]. apply String.eqb_eq in Hk.
    apply (class_facts.includes_iff_field _ Hne) in Hv
      as (pre & post & Hv & Hp & _ & Hq).
    split; [exact H1|]. split; [exact H2|].
    now exists a, pre, post.
  - intros (H1 & H2 & a & pre & post & Ha & Hk & Hv & Hp & Hq).
    repeat split; try assumption.
    exists a. split; [exact Ha|].
    apply andb_true_iff. split; [now apply String.eqb_eq|].
    apply (class_facts.includes_iff_field _ Hne).
    exists pre, post. now repeat split.
Qed.

(** X12. After a visit that received a page with at least one [<p>]
    match and a byline that is not empty, the program writes the heading
    line, the content followed by a newline, and the line "Byline: " with
    the byline; it logs nothing and exits with status 0. *)
Theorem full_output_of_a_page (net : Network) (url : string) (doc : Node) :
  net url = Received (Some doc) ->
  url <> "" ->
  paragraphs doc <> [] ->
  byline (ScrapeArticle net url) <> "" ->
  main.main net url
  = {| main.stdout :=
         "Scraped Article Content:" ++ newline
         ++ content (ScrapeArticle net url) ++ newline
         ++ "Byline: " ++ byline (ScrapeArticle net url) ++ newline;
       main.stderr := [];
       main.exit_status := 0 |}.
Proof.
  intros Hnet Hurl Hps Hb.
  rewrite (claims.main_page _ Hnet Hurl). cbv zeta.
  assert (Hc : content (ScrapeArticle net url) <> "").
  { intros H.
    now apply (@content_empty_paragraphs net url doc Hnet) in H. }
  apply bytefacts.isEmpty_false in Hc, Hb. rewrite Hc, Hb.
  f_equal. cbn. now rewrite !bytefacts.append_assoc.
Qed.

Lemma full_output_of_a_page_witness :
  main.main (samples.serving samples.by_jane) "http://news/"
  = {| main.stdout :=
         "Scraped Article Content:" ++ newline
         ++ ("First." ++ newline ++ "Second." ++ newline) ++ newline
         ++ "Byline: By Jane Doe" ++ newline;
       main.stderr := [];
       main.exit_status := 0 |}.
Proof.
  assert (Hurl : "http://news/" <> "") by discriminate.
  assert (Hps : paragraphs samples.by_jane <> [])
    by (vm_compute; discriminate).
  assert (Hb : byline (ScrapeArticle (samples.serving samples.by_jane)
                                     "http://news/") <> "")
    by (vm_compute; discriminate).
  rewrite (@full_output_of_a_page
             (samples.serving samples.by_jane) "http://news/"
             samples.by_jane eq_refl Hurl Hps Hb).
  vm_compute. reflexivity.
Defined.


Lemma byline_selector_accepts_class_field_witness :
  compile sel_div_Page_authors more_samples.several_classes = true.
Proof.
  apply (proj2 (byline_selector_accepts_class_field
                  more_samples.several_classes)).
  split; [reflexivity|]. split; [reflexivity|].
  exists (samples.class "Byline Page-authors dark"), "Byline ", " dark".
  repeat split. now left.
Defined.

End further.
